(** * Shallow embedding of the node cache of wallet-cache (package node).

    The Go package keeps a map from JSON-RPC method names to the last
    response obtained from the node, refreshed by one background worker per
    cacheable method, and answers inbound requests from that map or by
    forwarding them to the node.

    Model:
    - JSON values are an inductive [json]; the byte-level syntax of
      encoding/json (parsing text into a value, printing a value as text) is
      part of the environment [Env], as are the configured endpoint
      ([os.Getenv("NODE_ENDPOINT")]), whether [http.NewRequest] accepts a
      method/URL pair, and the answers of the node to [client.Do].
    - Struct decoding and encoding of [JSONRPCMessage] and
      [JSONRPCResponse], with their [omitempty] tags, are written out.
    - Effects (the cache map under its mutex, the calls to the node, the
      log and the ticker waits) are a state monad over [world]; the node's
      answer to the n-th outbound call is [upstream env n req]. *)

From Stdlib Require Import ZArith String Ascii.
From stdpp Require Import base list gmap strings.

Set Warnings "-register-all".
Open Scope string_scope.
Open Scope Z_scope.
Open Scope list_scope.

(** ** JSON values *)

Inductive json :=
| JNull
| JBool (b : bool)
| JNum (n : Z)
| JStr (s : string)
| JArr (vs : list json)
| JObj (fs : list (string * json)).

(** The keys of a JSON object, in order. *)
Definition obj_keys (j : json) : list string :=
  match j with
  | JObj fs => map fst fs
  | _ => []
  end.

(** encoding/json matches object keys to struct fields ignoring case;
    only ASCII case folding is modelled (Go also folds U+017F to s and
    U+212A to k). *)
Definition lower_ascii (a : ascii) : ascii :=
  let n := nat_of_ascii a in
  if (65 <=? n)%nat && (n <=? 90)%nat then ascii_of_nat (n + 32) else a.

Fixpoint lower (s : string) : string :=
  match s with
  | EmptyString => EmptyString
  | String a s' => String (lower_ascii a) (lower s')
  end.

Definition key_is (k name : string) : bool := String.eqb (lower k) name.

(** Go [int] is 64 bits wide; decoding a number outside its range fails. *)
Definition int64_ok (z : Z) : bool := (- 2 ^ 63 <=? z) && (z <? 2 ^ 63).

(** ** Data model *)

(** [type JSONRPCMessage struct { Version string; ID int; Method string;
    Params []string }], every field tagged [omitempty]. *)
Record JSONRPCMessage := {
  msg_Version : string;
  msg_ID : Z;
  msg_Method : string;
  msg_Params : list string
}.

(** [type JSONRPCResponse struct { Version string; ID int;
    Result interface{} }], every field tagged [omitempty]; a nil
    [interface{}] is [None]. *)
Record JSONRPCResponse := {
  resp_Version : string;
  resp_ID : Z;
  resp_Result : option json
}.

Definition zero_message : JSONRPCMessage :=
  {| msg_Version := ""; msg_ID := 0; msg_Method := ""; msg_Params := [] |}.

Definition zero_response : JSONRPCResponse :=
  {| resp_Version := ""; resp_ID := 0; resp_Result := None |}.

(** [var cacheMethods = []string{}] *)
Definition cacheMethods : list string := [].

(** The header value set by [cloneRequest]. *)
Definition user_agent : string :=
  "Mozilla/5.0 (Macintosh; Intel Mac OS X 10_11_6) AppleWebKit/537.36 (KHTML, like Gecko) Chrome/56.0.2924.87 Safari/537.36".

(** ** json.Marshal with omitempty *)

Definition omit_string (k s : string) : list (string * json) :=
  if String.eqb s "" then [] else [(k, JStr s)].

Definition omit_int (k : string) (z : Z) : list (string * json) :=
  if Z.eqb z 0 then [] else [(k, JNum z)].

Definition marshal_message (m : JSONRPCMessage) : json :=
  JObj (omit_string "jsonrpc" (msg_Version m)
        ++ omit_int "id" (msg_ID m)
        ++ omit_string "method" (msg_Method m)
        ++ match msg_Params m with
           | [] => []
           | ps => [("params", JArr (map JStr ps))]
           end).

Definition marshal_response (r : JSONRPCResponse) : json :=
  JObj (omit_string "jsonrpc" (resp_Version r)
        ++ omit_int "id" (resp_ID r)
        ++ match resp_Result r with
           | None => []
           | Some v => [("result", v)]
           end).

(** ** json.Unmarshal into the structs

    A field whose value has the wrong JSON type makes the whole call return
    an error; [null] leaves a field unchanged (a slice or interface is set to
    nil); unknown keys are ignored; later keys override earlier ones.
    An [interface{}] field keeps the JSON value as parsed: Go would hold a
    number as a float64 and an object as a map, which agree with this only
    for integers up to 2^53 and objects without duplicate keys. *)

Definition decode_string_elem (v : json) : option string :=
  match v with
  | JNull => Some ""
  | JStr s => Some s
  | _ => None
  end.

Fixpoint decode_strings (vs : list json) : option (list string) :=
  match vs with
  | [] => Some []
  | v :: vs' =>
      match decode_string_elem v, decode_strings vs' with
      | Some s, Some ss => Some (s :: ss)
      | _, _ => None
      end
  end.

Definition decode_message_field (m : JSONRPCMessage) (kv : string * json)
  : option JSONRPCMessage :=
  let '(k, v) := kv in
  if key_is k "jsonrpc" then
    match v with
    | JNull => Some m
    | JStr s => Some {| msg_Version := s; msg_ID := msg_ID m;
                        msg_Method := msg_Method m; msg_Params := msg_Params m |}
    | _ => None
    end
  else if key_is k "id" then
    match v with
    | JNull => Some m
    | JNum z =>
        if int64_ok z
        then Some {| msg_Version := msg_Version m; msg_ID := z;
                     msg_Method := msg_Method m; msg_Params := msg_Params m |}
        else None
    | _ => None
    end
  else if key_is k "method" then
    match v with
    | JNull => Some m
    | JStr s => Some {| msg_Version := msg_Version m; msg_ID := msg_ID m;
                        msg_Method := s; msg_Params := msg_Params m |}
    | _ => None
    end
  else if key_is k "params" then
    match v with
    | JNull => Some {| msg_Version := msg_Version m; msg_ID := msg_ID m;
                       msg_Method := msg_Method m; msg_Params := [] |}
    | JArr vs =>
        match decode_strings vs with
        | Some ps => Some {| msg_Version := msg_Version m; msg_ID := msg_ID m;
                             msg_Method := msg_Method m; msg_Params := ps |}
        | None => None
        end
    | _ => None
    end
  else Some m.

Fixpoint decode_message_fields (m : JSONRPCMessage) (fs : list (string * json))
  : option JSONRPCMessage :=
  match fs with
  | [] => Some m
  | kv :: fs' =>
      match decode_message_field m kv with
      | Some m' => decode_message_fields m' fs'
      | None => None
      end
  end.

Definition decode_message (j : json) : option JSONRPCMessage :=
  match j with
  | JNull => Some zero_message
  | JObj fs => decode_message_fields zero_message fs
  | _ => None
  end.

Definition decode_response_field (r : JSONRPCResponse) (kv : string * json)
  : option JSONRPCResponse :=
  let '(k, v) := kv in
  if key_is k "jsonrpc" then
    match v with
    | JNull => Some r
    | JStr s => Some {| resp_Version := s; resp_ID := resp_ID r;
                        resp_Result := resp_Result r |}
    | _ => None
    end
  else if key_is k "id" then
    match v with
    | JNull => Some r
    | JNum z =>
        if int64_ok z
        then Some {| resp_Version := resp_Version r; resp_ID := z;
                     resp_Result := resp_Result r |}
        else None
    | _ => None
    end
  else if key_is k "result" then
    match v with
    | JNull => Some {| resp_Version := resp_Version r; resp_ID := resp_ID r;
                       resp_Result := None |}
    | _ => Some {| resp_Version := resp_Version r; resp_ID := resp_ID r;
                   resp_Result := Some v |}
    end
  else Some r.

Fixpoint decode_response_fields (r : JSONRPCResponse) (fs : list (string * json))
  : option JSONRPCResponse :=
  match fs with
  | [] => Some r
  | kv :: fs' =>
      match decode_response_field r kv with
      | Some r' => decode_response_fields r' fs'
      | None => None
      end
  end.

Definition decode_response (j : json) : option JSONRPCResponse :=
  match j with
  | JNull => Some zero_response
  | JObj fs => decode_response_fields zero_response fs
  | _ => None
  end.

(** ** HTTP and errors *)

Record http_request := {
  hr_method : string;
  hr_url : string;
  hr_headers : list (string * string);
  hr_body : string
}.

(** Outcome of [ioutil.ReadAll] on a body. *)
Inductive read_result :=
| ReadOk (b : string)
| ReadErr.

(** Outcome of [nc.client.Do(req)]: a transport error, or a response with
    its status code and body. *)
Inductive do_result :=
| DoErr
| DoResp (status : Z) (body : read_result).

(** The error values the code produces. *)
Inductive error :=
| ErrTransport                  (* from client.Do *)
| ErrRead                       (* from ioutil.ReadAll *)
| ErrStatus (code : Z)          (* "Status code is %d" *)
| ErrNewRequest                 (* from http.NewRequest *)
| ErrUnmarshal                  (* from json.Unmarshal *)
| ErrNotCached (method : string). (* "Method %s is not supported caching" *)

(** Go's [(value, error)] results. *)
Inductive result (A : Type) :=
| Ok (a : A)
| Err (e : error).
Arguments Ok {A} a.
Arguments Err {A} e.

(** An inbound request as received by [HandleRequest]. *)
Record inbound_request := {
  in_method : string;
  in_url : string;
  in_headers : list (string * string);
  in_body : read_result
}.

(** ** Environment *)

Record Env := {
  (** the syntax layer of encoding/json *)
  parse_json : string -> option json;
  render_json : json -> string;
  (** [os.Getenv("NODE_ENDPOINT")] *)
  NODE_ENDPOINT : string;
  (** whether [http.NewRequest(method, url, body)] succeeds *)
  new_request_ok : string -> string -> bool;
  (** the node's answer to the n-th outbound call *)
  upstream : nat -> http_request -> do_result
}.

(** ** World and effects *)

Inductive event :=
| ECall (r : http_request)   (* nc.client.Do(r) *)
| EWait                      (* <-ticker.C *)
| EStore (method : string)   (* SetCacheResponse(method, _) *)
| ELog (e : error).          (* log.Println(err) *)

Record world := {
  cacheResponse : gmap string JSONRPCResponse;
  trace : list event
}.

Definition is_call (e : event) : bool :=
  match e with ECall _ => true | _ => false end.

Definition is_log (e : event) : bool :=
  match e with ELog _ => true | _ => false end.

Definition calls_of (t : list event) : list http_request :=
  omap (fun e => match e with ECall r => Some r | _ => None end) t.

Definition M (A : Type) : Type := world -> A * world.

#[global] Instance M_ret : MRet M := fun A x w => (x, w).
#[global] Instance M_bind : MBind M := fun A B k c w => let '(a, w') := c w in k a w'.

Definition emit (e : event) : M unit :=
  fun w => (tt, {| cacheResponse := cacheResponse w; trace := trace w ++ [e] |}).

Definition log (e : error) : M unit := emit (ELog e).

Definition wait : M unit := emit EWait.

Definition read_cache : M (gmap string JSONRPCResponse) :=
  fun w => (cacheResponse w, w).

(** [resp, err := nc.client.Do(req)] *)
Definition client_Do (env : Env) (req : http_request) : M do_result :=
  fun w =>
    (upstream env (length (calls_of (trace w))) req,
     {| cacheResponse := cacheResponse w; trace := trace w ++ [ECall req] |}).

(** json.Unmarshal(bytes, &v) for the two structs. *)
Definition unmarshal_message (env : Env) (b : string) : result JSONRPCMessage :=
  match parse_json env b with
  | Some j => match decode_message j with
              | Some m => Ok m
              | None => Err ErrUnmarshal
              end
  | None => Err ErrUnmarshal
  end.

Definition unmarshal_response (env : Env) (b : string) : result JSONRPCResponse :=
  match parse_json env b with
  | Some j => match decode_response j with
              | Some r => Ok r
              | None => Err ErrUnmarshal
              end
  | None => Err ErrUnmarshal
  end.

(** ** The operations of NodeCache *)

(** [func (nc *NodeCache) callMethod(req *http.Request) ([]byte, error)] *)
Definition callMethod (env : Env) (req : http_request) : M (result string) :=
  resp ← client_Do env req;
  match resp with
  | DoErr => log ErrTransport;; mret (Err ErrTransport)
  | DoResp status body =>
      if Z.eqb status 200 then
        match body with
        | ReadOk bodyBytes => mret (Ok bodyBytes)
        | ReadErr => log ErrRead;; mret (Err ErrRead)
        end
      else mret (Err (ErrStatus status))
  end.

(** The envelope built by [makeRequest]. *)
Definition refresh_message (method : string) : JSONRPCMessage :=
  {| msg_Version := "2.0"; msg_ID := 0; msg_Method := method; msg_Params := [] |}.

(** [func (nc *NodeCache) makeRequest(method string) ( *http.Request, error)];
    [json.Marshal] of a [JSONRPCMessage] cannot fail. *)
Definition makeRequest (env : Env) (method : string) : M (result http_request) :=
  let paramBytes := render_json env (marshal_message (refresh_message method)) in
  if new_request_ok env "POST" (NODE_ENDPOINT env) then
    mret (Ok {| hr_method := "POST"; hr_url := NODE_ENDPOINT env;
                hr_headers := []; hr_body := paramBytes |})
  else log ErrNewRequest;; mret (Err ErrNewRequest).

(** [func (nc *NodeCache) cloneRequest(req *http.Request) ( *http.Request, error)];
    the body is always a [bytes.Reader] here, so reading it cannot fail. *)
Definition cloneRequest (env : Env) (req : http_request) : M (result http_request) :=
  let body := hr_body req in
  if new_request_ok env (hr_method req) (NODE_ENDPOINT env) then
    mret (Ok {| hr_method := hr_method req; hr_url := NODE_ENDPOINT env;
                hr_headers := [("User-Agent", user_agent)]; hr_body := body |})
  else log ErrNewRequest;; mret (Err ErrNewRequest).

(** [func (nc *NodeCache) SetCacheResponse(method string, message JSONRPCResponse)] *)
Definition SetCacheResponse (method : string) (message : JSONRPCResponse) : M unit :=
  fun w => (tt, {| cacheResponse := <[method := message]> (cacheResponse w);
                   trace := trace w ++ [EStore method] |}).

(** [jsonRPCResponse.ID = message.ID] on the local copy. *)
Definition with_ID (r : JSONRPCResponse) (id : Z) : JSONRPCResponse :=
  {| resp_Version := resp_Version r; resp_ID := id; resp_Result := resp_Result r |}.

(** [func (nc *NodeCache) GetCacheResponse(message JSONRPCMessage) ([]byte, error)];
    marshalling a decoded response cannot fail. *)
Definition GetCacheResponse (env : Env) (message : JSONRPCMessage) : M (result string) :=
  cache ← read_cache;
  match cache !! msg_Method message with
  | Some jsonRPCResponse =>
      mret (Ok (render_json env (marshal_response (with_ID jsonRPCResponse (msg_ID message)))))
  | None => mret (Err (ErrNotCached (msg_Method message)))
  end.

(** [func (nc *NodeCache) HandleRequest(req *http.Request) ([]byte, error)] *)
Definition HandleRequest (env : Env) (req : inbound_request) : M (result string) :=
  match in_body req with
  | ReadErr => log ErrRead;; mret (Err ErrRead)
  | ReadOk body =>
      hit ← match unmarshal_message env body with
            | Ok message =>
                cacheResp ← GetCacheResponse env message;
                match cacheResp with
                | Ok b => mret (Some b)
                | Err _ => mret None
                end
            | Err _ => mret None
            end;
      match hit with
      | Some b => mret (Ok b)
      | None =>
          (* req.Body = ioutil.NopCloser(bytes.NewReader(body)) *)
          proxyReq ← cloneRequest env {| hr_method := in_method req; hr_url := in_url req;
                                         hr_headers := in_headers req; hr_body := body |};
          match proxyReq with
          | Err e => log e;; mret (Err e)
          | Ok preq => callMethod env preq
          end
      end
  end.

(** One iteration of the [for] loop of [cacheWorker]. *)
Definition cacheWorker_cycle (env : Env) (method : string) : M unit :=
  req ← makeRequest env method;
  match req with
  | Err e => log e;; wait
  | Ok r =>
      proxyReq ← cloneRequest env r;
      match proxyReq with
      | Err e => log e;; wait
      | Ok preq =>
          resp ← callMethod env preq;
          match resp with
          | Err e => log e;; wait
          | Ok b =>
              match unmarshal_response env b with
              | Err e => log e;; wait
              | Ok jsonRPCResponse => SetCacheResponse method jsonRPCResponse;; wait
              end
          end
      end
  end.

(** [func (nc *NodeCache) cacheWorker(method string)]: the loop has no exit;
    [cacheWorker env method n] runs its first [n] iterations. *)
Fixpoint cacheWorker (env : Env) (method : string) (n : nat) : M unit :=
  match n with
  | O => mret tt
  | S n' => cacheWorker_cycle env method;; cacheWorker env method n'
  end.

(** ** The running system

    [NewNodeCache] starts from an empty map; [run] starts one worker per
    method of [cacheMethods]; inbound requests are handled concurrently.
    The only accesses to the map are the single write of a worker cycle and
    the single read of a request, each under the mutex, so an execution is
    an interleaving of worker cycles and request handlings. *)

Definition NewNodeCache : world := {| cacheResponse := ∅; trace := [] |}.

Inductive sys_step :=
| SWorker (method : string)
| SHandle (req : inbound_request).

Definition sys_exec (env : Env) (s : sys_step) : M unit :=
  match s with
  | SWorker method => cacheWorker_cycle env method
  | SHandle req => _ ← HandleRequest env req; mret tt
  end.

Fixpoint sys_run (env : Env) (steps : list sys_step) : M unit :=
  match steps with
  | [] => mret tt
  | s :: steps' => sys_exec env s;; sys_run env steps'
  end.

(** ** A concrete environment for examples *)

Definition ex_request_json : json :=
  JObj [("jsonrpc", JStr "2.0"); ("id", JNum 42); ("method", JStr "eth_gasPrice")].

Definition ex_response_json : json :=
  JObj [("jsonrpc", JStr "2.0"); ("id", JNum 0); ("result", JStr "0x4a817c800")].

(** A toy syntax layer: the texts "req42", "req0", "resp" and "null" parse,
    nothing else does. *)
Definition ex_parse (s : string) : option json :=
  if String.eqb s "req42" then Some ex_request_json
  else if String.eqb s "req0" then Some (JObj [("method", JStr "eth_gasPrice")])
  else if String.eqb s "resp" then Some ex_response_json
  else if String.eqb s "null" then Some JNull
  else None.

Definition ex_env (answer : do_result) : Env :=
  {| parse_json := ex_parse;
     render_json := fun _ => "rendered";
     NODE_ENDPOINT := "http://node:8545";
     new_request_ok := fun _ _ => true;
     upstream := fun _ _ => answer |}.

Definition ex_inbound (body : string) : inbound_request :=
  {| in_method := "POST"; in_url := "/"; in_headers := []; in_body := ReadOk body |}.

Definition ex_cached : JSONRPCResponse :=
  {| resp_Version := "2.0"; resp_ID := 0; resp_Result := Some (JStr "0x4a817c800") |}.

Definition ex_world : world :=
  {| cacheResponse := {[ "eth_gasPrice" := ex_cached ]}; trace := [] |}.

Definition ex_message42 : JSONRPCMessage :=
  {| msg_Version := "2.0"; msg_ID := 42; msg_Method := "eth_gasPrice"; msg_Params := [] |}.

Definition ex_message0 : JSONRPCMessage :=
  {| msg_Version := ""; msg_ID := 0; msg_Method := "eth_gasPrice"; msg_Params := [] |}.

Example ex_decode_request :
  unmarshal_message (ex_env DoErr) "req42"
  = Ok {| msg_Version := "2.0"; msg_ID := 42; msg_Method := "eth_gasPrice"; msg_Params := [] |}.
Proof. reflexivity. Qed.

Example ex_refresh_then_hit :
  let env := ex_env (DoResp 200 (ReadOk "resp")) in
  let w := snd (sys_run env [SWorker "eth_gasPrice"] NewNodeCache) in
  cacheResponse w !! "eth_gasPrice"
    = Some {| resp_Version := "2.0"; resp_ID := 0; resp_Result := Some (JStr "0x4a817c800") |}
  /\ fst (HandleRequest env (ex_inbound "req42") w) = Ok "rendered".
Proof. vm_compute. split; reflexivity. Qed.

Example ex_refresh_failed :
  let env := ex_env (DoResp 500 (ReadOk "resp")) in
  trace (snd (cacheWorker env "eth_gasPrice" 1 NewNodeCache))
  = [ECall {| hr_method := "POST"; hr_url := "http://node:8545";
              hr_headers := [("User-Agent", user_agent)]; hr_body := "rendered" |};
     ELog (ErrStatus 500); EWait].
Proof. reflexivity. Qed.

(** ** Invariant of reachable worlds

    A method has no entry exactly when no [SetCacheResponse] for it has
    happened, and no cached result is an explicit [null]. *)

Definition inv (w : world) : Prop :=
  (forall m, cacheResponse w !! m = None <-> EStore m ∉ trace w) /\
  (forall m r, cacheResponse w !! m = Some r -> resp_Result r <> Some JNull).

(** A computation keeps the invariant and only appends to the trace. *)
Definition preserves {A} (c : M A) : Prop :=
  forall w, inv w -> inv (snd (c w)) /\ exists l, trace (snd (c w)) = trace w ++ l.

Lemma trace_mk c t : trace {| cacheResponse := c; trace := t |} = t.
Proof. reflexivity. Qed.

Lemma cache_mk c t : cacheResponse {| cacheResponse := c; trace := t |} = c.
Proof. reflexivity. Qed.

Lemma ret_pres {A} (x : A) : preserves (mret x).
Proof. intros w Hw. split; [exact Hw | exists []; simpl; by rewrite app_nil_r]. Qed.

Lemma bind_pres {A B} (c : M A) (k : A -> M B) :
  preserves c -> (forall a, preserves (k a)) -> preserves (mbind k c).
Proof.
  intros Hc Hk w Hw. unfold mbind, M_bind.
  destruct (c w) as [a w1] eqn:E.
  destruct (Hc w Hw) as [Hw1 [l1 Hl1]]. rewrite E in Hw1, Hl1. simpl in Hw1, Hl1.
  destruct (Hk a w1 Hw1) as [Hw2 [l2 Hl2]].
  split; [exact Hw2|]. exists (l1 ++ l2). rewrite Hl2, Hl1. by rewrite app_assoc.
Qed.

Lemma emit_pres e : (forall m, e <> EStore m) -> preserves (emit e).
Proof.
  intros He w [H1 H2]. cbn [snd emit trace cacheResponse]. split; [split|].
  - intros m. rewrite ?trace_mk, ?cache_mk, H1. rewrite elem_of_app, list_elem_of_singleton.
    split; intros Hn; [intros [Hin|Heq]; [by apply Hn|by apply (He m)]|].
    intros Hin; apply Hn; by left.
  - rewrite ?cache_mk. exact H2.
  - by exists [e].
Qed.

Lemma log_pres e : preserves (log e).
Proof. apply emit_pres. discriminate. Qed.

Lemma wait_pres : preserves wait.
Proof. apply emit_pres. discriminate. Qed.

Lemma read_cache_pres : preserves read_cache.
Proof. intros w Hw. split; [exact Hw | exists []; simpl; by rewrite app_nil_r]. Qed.

Lemma client_Do_pres env req : preserves (client_Do env req).
Proof.
  intros w [H1 H2]. cbn [snd client_Do trace cacheResponse]. split; [split|].
  - intros m. rewrite ?trace_mk, ?cache_mk, H1. rewrite elem_of_app, list_elem_of_singleton.
    split; intros Hn; [intros [Hin|Heq]; [by apply Hn|discriminate]|].
    intros Hin; apply Hn; by left.
  - rewrite ?cache_mk. exact H2.
  - by exists [ECall req].
Qed.

Lemma SetCacheResponse_pres method r :
  resp_Result r <> Some JNull -> preserves (SetCacheResponse method r).
Proof.
  intros Hr w [H1 H2]. cbn [snd SetCacheResponse trace cacheResponse]. split; [split|].
  - intros m. rewrite ?trace_mk, ?cache_mk. rewrite elem_of_app, list_elem_of_singleton.
    destruct (decide (m = method)) as [->|Hne].
    + rewrite lookup_insert_eq. split; [discriminate|]. intros Hn. exfalso. apply Hn. by right.
    + rewrite lookup_insert_ne by congruence. rewrite H1.
      split; intros Hn; [intros [Hin|Heq]; [by apply Hn|congruence]|].
      intros Hin; apply Hn; by left.
  - intros m r'. rewrite ?cache_mk. destruct (decide (m = method)) as [->|Hne].
    + rewrite lookup_insert_eq. intros [= <-]. exact Hr.
    + rewrite lookup_insert_ne by congruence. apply H2.
  - by exists [EStore method].
Qed.

(** Decoding never stores an explicit [null] result. *)
Lemma decode_response_fields_no_null r fs r' :
  resp_Result r <> Some JNull -> decode_response_fields r fs = Some r' ->
  resp_Result r' <> Some JNull.
Proof.
  revert r. induction fs as [|[k v] fs IH]; intros r Hr Hd.
  - simpl in Hd. simplify_eq. done.
  - cbn [decode_response_fields] in Hd. destruct (decode_response_field r (k, v)) as [r1|] eqn:E; [|discriminate].
    apply (IH r1); [|exact Hd].
    unfold decode_response_field in E.
    repeat case_match; simplify_eq; simpl; congruence.
Qed.

Lemma unmarshal_response_no_null env b r :
  unmarshal_response env b = Ok r -> resp_Result r <> Some JNull.
Proof.
  unfold unmarshal_response, decode_response. intros H.
  repeat case_match; simplify_eq; try discriminate.
  eapply decode_response_fields_no_null; [|eassumption]. simpl. discriminate.
Qed.

Ltac pres :=
  repeat match goal with
  | |- preserves (mbind _ _) => apply bind_pres
  | |- forall _, _ => intro
  | |- preserves (mret _) => apply ret_pres
  | |- preserves (log _) => apply log_pres
  | |- preserves wait => apply wait_pres
  | |- preserves read_cache => apply read_cache_pres
  | |- preserves (client_Do _ _) => apply client_Do_pres
  | |- preserves (SetCacheResponse _ _) =>
      apply SetCacheResponse_pres; eapply unmarshal_response_no_null; eassumption
  | |- preserves (match ?x with _ => _ end) => destruct x eqn:?
  end.

Lemma callMethod_pres env req : preserves (callMethod env req).
Proof. unfold callMethod. pres. Qed.

Lemma makeRequest_pres env method : preserves (makeRequest env method).
Proof. unfold makeRequest. pres. Qed.

Lemma cloneRequest_pres env req : preserves (cloneRequest env req).
Proof. unfold cloneRequest. pres. Qed.

Lemma GetCacheResponse_pres env message : preserves (GetCacheResponse env message).
Proof. unfold GetCacheResponse. pres. Qed.

Lemma HandleRequest_pres env req : preserves (HandleRequest env req).
Proof.
  unfold HandleRequest. pres;
    auto using GetCacheResponse_pres, cloneRequest_pres, callMethod_pres.
Qed.

Lemma cacheWorker_cycle_pres env method : preserves (cacheWorker_cycle env method).
Proof.
  unfold cacheWorker_cycle. pres;
    auto using makeRequest_pres, cloneRequest_pres, callMethod_pres.
Qed.

Lemma sys_run_pres env steps : preserves (sys_run env steps).
Proof.
  induction steps as [|s steps IH]; simpl; pres; auto.
  destruct s; simpl; pres; auto using cacheWorker_cycle_pres, HandleRequest_pres.
Qed.

Lemma inv_NewNodeCache : inv NewNodeCache.
Proof.
  split; simpl.
  - intros m. rewrite lookup_empty. split; [intros _; apply not_elem_of_nil|done].
  - intros m r. by rewrite lookup_empty.
Qed.

Lemma reachable_inv env steps : inv (snd (sys_run env steps NewNodeCache)).
Proof. apply (sys_run_pres env steps NewNodeCache inv_NewNodeCache). Qed.

(** ** Reading the cache *)

Definition not_found (r : result string) : bool :=
  match r with
  | Err (ErrNotCached _) => true
  | _ => false
  end.

Lemma GetCacheResponse_eq env message w :
  GetCacheResponse env message w =
  (match cacheResponse w !! msg_Method message with
   | Some r => Ok (render_json env (marshal_response (with_ID r (msg_ID message))))
   | None => Err (ErrNotCached (msg_Method message))
   end, w).
Proof.
  unfold GetCacheResponse, mbind, M_bind, read_cache, mret, M_ret.
  by destruct (cacheResponse w !! msg_Method message).
Qed.

(** ** Frame: code that never writes the map *)

Definition keeps_cache {A} (c : M A) : Prop :=
  forall w, cacheResponse (snd (c w)) = cacheResponse w.

Lemma ret_keeps {A} (x : A) : keeps_cache (mret x).
Proof. intros w. reflexivity. Qed.

Lemma bind_keeps {A B} (c : M A) (k : A -> M B) :
  keeps_cache c -> (forall a, keeps_cache (k a)) -> keeps_cache (mbind k c).
Proof.
  intros Hc Hk w. unfold mbind, M_bind.
  specialize (Hc w). destruct (c w) as [a w1]. simpl in Hc.
  rewrite (Hk a w1). exact Hc.
Qed.

Lemma log_keeps e : keeps_cache (log e).
Proof. intros w. reflexivity. Qed.

Lemma read_cache_keeps : keeps_cache read_cache.
Proof. intros w. reflexivity. Qed.

Lemma client_Do_keeps env req : keeps_cache (client_Do env req).
Proof. intros w. reflexivity. Qed.

Ltac keeps :=
  repeat match goal with
  | |- keeps_cache (mbind _ _) => apply bind_keeps
  | |- forall _, _ => intro
  | |- keeps_cache (mret _) => apply ret_keeps
  | |- keeps_cache (log _) => apply log_keeps
  | |- keeps_cache read_cache => apply read_cache_keeps
  | |- keeps_cache (client_Do _ _) => apply client_Do_keeps
  | |- keeps_cache (match ?x with _ => _ end) => destruct x eqn:?
  end.

Lemma callMethod_keeps env req : keeps_cache (callMethod env req).
Proof. unfold callMethod. keeps. Qed.

Lemma cloneRequest_keeps env req : keeps_cache (cloneRequest env req).
Proof. unfold cloneRequest. keeps. Qed.

Lemma GetCacheResponse_keeps env message : keeps_cache (GetCacheResponse env message).
Proof. unfold GetCacheResponse. keeps. Qed.

(** ** Claims *)

(** C5: [GetCacheResponse] signals NotFound (its error "Method %s is not
    supported caching") for a method exactly when no [SetCacheResponse]
    for that method has happened since [NewNodeCache], in any interleaving
    of worker cycles and request handlings; once a method has been stored,
    NotFound is never signalled for it again, whatever runs afterwards. *)
Theorem get_not_found_iff_never_stored (env : Env) (steps steps' : list sys_step)
  (message : JSONRPCMessage) :
  let w := snd (sys_run env steps NewNodeCache) in
  (not_found (fst (GetCacheResponse env message w)) = true
     <-> EStore (msg_Method message) ∉ trace w) /\
  (EStore (msg_Method message) ∈ trace w ->
   not_found (fst (GetCacheResponse env message (snd (sys_run env steps' w)))) = false).
Proof.
  intros w.
  assert (Hw : inv w) by apply reachable_inv.
  destruct (sys_run_pres env steps' w Hw) as [[Hw'1 _] [l Hl]].
  destruct Hw as [H1 _].
  split.
  - rewrite GetCacheResponse_eq. simpl. rewrite <- H1.
    destruct (cacheResponse w !! msg_Method message); simpl; split; congruence.
  - intros Hin. rewrite GetCacheResponse_eq. simpl.
    destruct (cacheResponse (snd (sys_run env steps' w)) !! msg_Method message) eqn:E;
      [reflexivity|].
    exfalso. apply (proj1 (Hw'1 _) E). rewrite Hl. apply elem_of_app. by left.
Qed.

Lemma get_not_found_iff_never_stored_witness :
  let env := ex_env (DoResp 200 (ReadOk "resp")) in
  let w := snd (sys_run env [SWorker "eth_gasPrice"] NewNodeCache) in
  EStore "eth_gasPrice" ∈ trace w /\
  not_found (fst (GetCacheResponse env ex_message42
                    (snd (sys_run env [SHandle (ex_inbound "req42")] w)))) = false.
Proof.
  intros env w.
  assert (Hin : EStore (msg_Method ex_message42) ∈ trace w).
  { vm_compute. apply elem_of_cons. right. apply elem_of_cons. by left. }
  split; [exact Hin|].
  exact (proj2 (get_not_found_iff_never_stored env [SWorker "eth_gasPrice"]
                  [SHandle (ex_inbound "req42")] ex_message42) Hin).
Defined.

(** C8: handling a request never writes the cache: the map after
    [HandleRequest] is the map before it, whatever the request; the
    identifier written on a hit is written on a copy, so the stored entry
    keeps its own identifier. *)
Theorem handle_never_writes_cache (env : Env) (req : inbound_request) (w : world) :
  cacheResponse (snd (HandleRequest env req w)) = cacheResponse w.
Proof.
  revert w. change (keeps_cache (HandleRequest env req)).
  unfold HandleRequest. keeps;
    auto using GetCacheResponse_keeps, cloneRequest_keeps, callMethod_keeps.
Qed.

(** ** Cache hits *)

Definition obj_fields (j : json) : list (string * json) :=
  match j with
  | JObj fs => fs
  | _ => []
  end.

Lemma decode_message_fields_int64 m fs m' :
  int64_ok (msg_ID m) = true -> decode_message_fields m fs = Some m' ->
  int64_ok (msg_ID m') = true.
Proof.
  revert m. induction fs as [|[k v] fs IH]; intros m Hm Hd.
  - simpl in Hd. simplify_eq. done.
  - cbn [decode_message_fields] in Hd.
    destruct (decode_message_field m (k, v)) as [m1|] eqn:E; [|discriminate].
    apply (IH m1); [|exact Hd].
    unfold decode_message_field in E.
    repeat case_match; simplify_eq; simpl; congruence.
Qed.

Lemma unmarshal_message_int64 env body message :
  unmarshal_message env body = Ok message -> int64_ok (msg_ID message) = true.
Proof.
  unfold unmarshal_message, decode_message. intros H.
  repeat case_match; simplify_eq; try reflexivity.
  eapply decode_message_fields_int64; [|eassumption]. reflexivity.
Qed.

Lemma HandleRequest_hit env req w body message cached :
  in_body req = ReadOk body ->
  unmarshal_message env body = Ok message ->
  cacheResponse w !! msg_Method message = Some cached ->
  HandleRequest env req w =
  (Ok (render_json env (marshal_response (with_ID cached (msg_ID message)))), w).
Proof.
  intros Hb Hm Hc. unfold HandleRequest. rewrite Hb, Hm.
  unfold mbind at 1, M_bind at 1. unfold mbind at 1, M_bind at 1.
  rewrite GetCacheResponse_eq, Hc. reflexivity.
Qed.

Lemma decode_marshal_response_id r :
  int64_ok (resp_ID r) = true ->
  option_map resp_ID (decode_response (marshal_response r)) = Some (resp_ID r).
Proof.
  intros Hid. destruct r as [v id res]. simpl in Hid.
  unfold marshal_response, omit_string, omit_int. simpl.
  destruct (String.eqb v "") eqn:Ev; destruct (Z.eqb id 0) eqn:Eid;
    destruct res as [j|]; simpl; rewrite ?Hid;
    try (destruct j); simpl; try reflexivity;
    apply Z.eqb_eq in Eid; subst; reflexivity.
Qed.

Lemma marshal_response_keys r :
  ("id" ∈ obj_keys (marshal_response r) <-> resp_ID r <> 0) /\
  ("result" ∈ obj_keys (marshal_response r) <-> resp_Result r <> None).
Proof.
  destruct r as [v id res]. unfold marshal_response, omit_string, omit_int. simpl.
  destruct (String.eqb v "") eqn:Ev; destruct (Z.eqb id 0) eqn:Eid;
    [apply Z.eqb_eq in Eid | apply Z.eqb_neq in Eid
    |apply Z.eqb_eq in Eid | apply Z.eqb_neq in Eid];
    destruct res as [j|]; simpl;
    rewrite ?elem_of_cons, ?elem_of_nil;
    (split; split; [intros; try congruence; intuition discriminate
                   | intros; try congruence; intuition discriminate
                   | intros; intuition (try congruence)
                   | intros; intuition (try congruence)]).
Qed.

Lemma marshal_response_fields_no_zero r :
  resp_Result r <> Some JNull ->
  forall k v, (k, v) ∈ obj_fields (marshal_response r) ->
  (k = "id" -> v <> JNum 0) /\ (k = "result" -> v <> JNull).
Proof.
  intros Hr k v. destruct r as [ver id res]. simpl in Hr.
  unfold marshal_response, omit_string, omit_int. simpl.
  rewrite !elem_of_app.
  destruct (String.eqb ver "") eqn:Ev; destruct (Z.eqb id 0) eqn:Eid;
    [apply Z.eqb_eq in Eid | apply Z.eqb_neq in Eid
    |apply Z.eqb_eq in Eid | apply Z.eqb_neq in Eid];
    destruct res as [j|];
    rewrite ?elem_of_cons, ?elem_of_nil;
    intros H; repeat destruct H as [H|H]; simplify_eq;
    split; intros; simplify_eq; congruence.
Qed.

(** C1: for an inbound request whose body is read and decodes as a
    [JSONRPCMessage] whose method has a cache entry, [HandleRequest]
    returns the cached response with its [ID] replaced by the request's
    [ID], without touching the world (no upstream call), and decoding the
    returned object yields the request's identifier whatever identifier
    the cached entry holds. *)
Theorem handle_hit_echoes_request_id (env : Env) (req : inbound_request) (w : world)
  (body : string) (message : JSONRPCMessage) (cached : JSONRPCResponse) :
  in_body req = ReadOk body ->
  unmarshal_message env body = Ok message ->
  cacheResponse w !! msg_Method message = Some cached ->
  let out := marshal_response (with_ID cached (msg_ID message)) in
  HandleRequest env req w = (Ok (render_json env out), w) /\
  option_map resp_ID (decode_response out) = Some (msg_ID message).
Proof.
  intros Hb Hm Hc out. split.
  - by apply HandleRequest_hit with body.
  - apply (decode_marshal_response_id (with_ID cached (msg_ID message))).
    simpl. by apply unmarshal_message_int64 with env body.
Qed.

Lemma handle_hit_echoes_request_id_witness :
  in_body (ex_inbound "req42") = ReadOk "req42" /\
  unmarshal_message (ex_env DoErr) "req42" = Ok ex_message42 /\
  cacheResponse ex_world !! msg_Method ex_message42 = Some ex_cached /\
  HandleRequest (ex_env DoErr) (ex_inbound "req42") ex_world
    = (Ok (render_json (ex_env DoErr) (marshal_response (with_ID ex_cached 42))), ex_world) /\
  option_map resp_ID (decode_response (marshal_response (with_ID ex_cached 42))) = Some 42.
Proof.
  split; [reflexivity|]. split; [reflexivity|]. split; [vm_compute; reflexivity|].
  apply (handle_hit_echoes_request_id (ex_env DoErr) (ex_inbound "req42") ex_world
           "req42" ex_message42 ex_cached);
    [reflexivity | reflexivity | vm_compute; reflexivity].
Defined.

(** C10: on a reachable world, a cache hit returns the encoding of an
    object that has an ["id"] key exactly when the request's identifier is
    non-zero (an absent identifier decodes as 0) and a ["result"] key
    exactly when the cached result is non-nil; no returned field is an
    explicit ["id": 0] or ["result": null]. *)
Theorem cache_hit_omits_empty_fields (env : Env) (steps : list sys_step)
  (req : inbound_request) (body : string) (message : JSONRPCMessage)
  (cached : JSONRPCResponse) :
  let w := snd (sys_run env steps NewNodeCache) in
  in_body req = ReadOk body ->
  unmarshal_message env body = Ok message ->
  cacheResponse w !! msg_Method message = Some cached ->
  let out := marshal_response (with_ID cached (msg_ID message)) in
  fst (HandleRequest env req w) = Ok (render_json env out) /\
  ("id" ∈ obj_keys out <-> msg_ID message <> 0) /\
  ("result" ∈ obj_keys out <-> resp_Result cached <> None) /\
  (forall k v, (k, v) ∈ obj_fields out ->
     (k = "id" -> v <> JNum 0) /\ (k = "result" -> v <> JNull)).
Proof.
  intros w Hb Hm Hc out.
  destruct (reachable_inv env steps) as [_ Hnull].
  destruct (marshal_response_keys (with_ID cached (msg_ID message))) as [Hk1 Hk2].
  split; [|split; [exact Hk1|split; [exact Hk2|]]].
  - by rewrite (HandleRequest_hit env req w body message cached Hb Hm Hc).
  - apply marshal_response_fields_no_zero. simpl. exact (Hnull _ _ Hc).
Qed.

Lemma cache_hit_omits_empty_fields_witness :
  let env := ex_env (DoResp 200 (ReadOk "resp")) in
  let w := snd (sys_run env [SWorker "eth_gasPrice"] NewNodeCache) in
  cacheResponse w !! "eth_gasPrice" = Some ex_cached /\
  "id" ∉ obj_keys (marshal_response (with_ID ex_cached (msg_ID ex_message0))).
Proof.
  intros env w.
  assert (Hc : cacheResponse w !! msg_Method ex_message0 = Some ex_cached)
    by (vm_compute; reflexivity).
  split; [exact Hc|].
  destruct (cache_hit_omits_empty_fields env [SWorker "eth_gasPrice"] (ex_inbound "req0")
              "req0" ex_message0 ex_cached eq_refl eq_refl Hc) as [_ [[Hid _] _]].
  intros Hin. apply (Hid Hin). reflexivity.
Defined.

(** ** Upstream calls *)

Lemma calls_of_app l1 l2 : calls_of (l1 ++ l2) = calls_of l1 ++ calls_of l2.
Proof. unfold calls_of. apply omap_app. Qed.

Lemma callMethod_result env req w :
  let ans := upstream env (length (calls_of (trace w))) req in
  fst (callMethod env req w) =
    match ans with
    | DoErr => Err ErrTransport
    | DoResp status rb =>
        if Z.eqb status 200 then
          match rb with ReadOk b => Ok b | ReadErr => Err ErrRead end
        else Err (ErrStatus status)
    end /\
  calls_of (trace (snd (callMethod env req w))) = calls_of (trace w) ++ [req].
Proof.
  unfold callMethod, client_Do, log, emit, mbind, M_bind, mret, M_ret. simpl.
  destruct (upstream env (length (calls_of (trace w))) req) as [|status [b|]];
    simpl; [|destruct (Z.eqb status 200) ..]; simpl;
    rewrite ?calls_of_app; simpl; rewrite ?app_nil_r; auto.
Qed.

(** The request a refresh cycle sends: [makeRequest] then [cloneRequest]. *)
Definition refresh_proxy_request (env : Env) (method : string) : http_request :=
  {| hr_method := "POST"; hr_url := NODE_ENDPOINT env;
     hr_headers := [("User-Agent", user_agent)];
     hr_body := render_json env (marshal_message (refresh_message method)) |}.

(** The response a refresh cycle stores, given the node's answer. *)
Definition refresh_result (env : Env) (ans : do_result) : option JSONRPCResponse :=
  match ans with
  | DoResp status (ReadOk b) =>
      if Z.eqb status 200 then
        match unmarshal_response env b with
        | Ok jr => Some jr
        | Err _ => None
        end
      else None
  | _ => None
  end.

Lemma cacheWorker_cycle_ok env method w :
  new_request_ok env "POST" (NODE_ENDPOINT env) = true ->
  let preq := refresh_proxy_request env method in
  let ans := upstream env (length (calls_of (trace w))) preq in
  exists mid,
    snd (cacheWorker_cycle env method w) =
      {| cacheResponse := match refresh_result env ans with
                          | Some jr => <[method := jr]> (cacheResponse w)
                          | None => cacheResponse w
                          end;
         trace := trace w ++ [ECall preq] ++ mid ++ [EWait] |} /\
    match refresh_result env ans with
    | Some _ => mid = [EStore method]
    | None => Forall (fun e => is_log e = true) mid /\ mid <> []
    end.
Proof.
  intros Hok preq ans.
  unfold cacheWorker_cycle, makeRequest, cloneRequest, callMethod, client_Do,
    SetCacheResponse, log, wait, emit, mbind, M_bind, mret, M_ret.
  rewrite Hok. simpl. rewrite Hok. simpl.
  fold (refresh_proxy_request env method). fold preq. unfold ans.
  unfold refresh_result.
  destruct (upstream env (length (calls_of (trace w))) preq) as [|status [b|]]; simpl.
  - exists [ELog ErrTransport; ELog ErrTransport].
    split; [f_equal; by rewrite <- !app_assoc|]. split; [repeat constructor|done].
  - destruct (Z.eqb status 200); simpl.
    + destruct (unmarshal_response env b) as [jr|e]; simpl.
      * exists [EStore method]. split; [f_equal; by rewrite <- !app_assoc|]. reflexivity.
      * exists [ELog e]. split; [f_equal; by rewrite <- !app_assoc|].
        split; [repeat constructor|done].
    + exists [ELog (ErrStatus status)]. split; [f_equal; by rewrite <- !app_assoc|].
      split; [repeat constructor|done].
  - destruct (Z.eqb status 200); simpl.
    + exists [ELog ErrRead; ELog ErrRead]. split; [f_equal; by rewrite <- !app_assoc|].
      split; [repeat constructor|done].
    + exists [ELog (ErrStatus status)]. split; [f_equal; by rewrite <- !app_assoc|].
      split; [repeat constructor|done].
Qed.

Lemma cacheWorker_cycle_bad env method w :
  new_request_ok env "POST" (NODE_ENDPOINT env) = false ->
  snd (cacheWorker_cycle env method w) =
    {| cacheResponse := cacheResponse w;
       trace := trace w ++ [ELog ErrNewRequest; ELog ErrNewRequest; EWait] |}.
Proof.
  intros Hbad.
  unfold cacheWorker_cycle, makeRequest, log, wait, emit, mbind, M_bind, mret, M_ret.
  rewrite Hbad. simpl. f_equal. by rewrite <- !app_assoc.
Qed.

Lemma cacheWorker_S env method n w :
  cacheWorker env method (S n) w =
  cacheWorker env method n (snd (cacheWorker_cycle env method w)).
Proof.
  simpl. unfold mbind, M_bind. by destruct (cacheWorker_cycle env method w).
Qed.

Lemma calls_of_logs mid :
  Forall (fun e => is_log e = true) mid -> calls_of mid = [].
Proof.
  induction 1 as [|e mid He _ IH]; [reflexivity|].
  destruct e; try discriminate. exact IH.
Qed.

Lemma logs_no_store mid m :
  Forall (fun e => is_log e = true) mid -> EStore m ∉ mid.
Proof.
  intros Hf Hin. rewrite Forall_forall in Hf. specialize (Hf _ Hin). discriminate.
Qed.

(** The events of one refresh cycle, given the index of its call. *)
Definition cycle_shape (env : Env) (method : string) (k : nat) (seg : list event) : Prop :=
  let preq := refresh_proxy_request env method in
  exists mid, seg = [ECall preq] ++ mid ++ [EWait] /\
    match refresh_result env (upstream env k preq) with
    | Some _ => mid = [EStore method]
    | None => Forall (fun e => is_log e = true) mid /\ mid <> []
    end.

(** C2: a refresh cycle that fails (the request cannot be built, the node
    is unreachable, answers a status other than 200, its body cannot be
    read, or it does not decode as a [JSONRPCResponse]) leaves the cache
    map exactly as it was, stores nothing, ends by waiting for the ticker,
    and the loop goes on with its next iteration from there. *)
Theorem failed_refresh_keeps_cache (env : Env) (method : string) (w : world) :
  new_request_ok env "POST" (NODE_ENDPOINT env) = false \/
  refresh_result env
    (upstream env (length (calls_of (trace w))) (refresh_proxy_request env method)) = None ->
  let w' := snd (cacheWorker_cycle env method w) in
  cacheResponse w' = cacheResponse w /\
  (exists l, trace w' = trace w ++ l ++ [EWait] /\ forall m, EStore m ∉ l) /\
  forall n, cacheWorker env method (S n) w = cacheWorker env method n w'.
Proof.
  intros Hfail w'.
  split; [|split; [|intros n; apply cacheWorker_S]].
  - unfold w'. destruct (new_request_ok env "POST" (NODE_ENDPOINT env)) eqn:Hok.
    + destruct Hfail as [Hf|Hr]; [discriminate|].
      destruct (cacheWorker_cycle_ok env method w Hok) as [mid [Heq _]].
      rewrite Heq, Hr. reflexivity.
    + by rewrite (cacheWorker_cycle_bad env method w Hok).
  - unfold w'. destruct (new_request_ok env "POST" (NODE_ENDPOINT env)) eqn:Hok.
    + destruct Hfail as [Hf|Hr]; [discriminate|].
      destruct (cacheWorker_cycle_ok env method w Hok) as [mid [Heq Hmid]].
      rewrite Hr in Hmid. destruct Hmid as [Hlogs _].
      exists ([ECall (refresh_proxy_request env method)] ++ mid).
      rewrite Heq. split; [simpl; by rewrite <- ?app_assoc|].
      intros m. rewrite elem_of_app, elem_of_cons, elem_of_nil.
      intros [[Hc|[]]|Hin]; [discriminate|]. by apply (logs_no_store mid m).
    + rewrite (cacheWorker_cycle_bad env method w Hok).
      exists [ELog ErrNewRequest; ELog ErrNewRequest]. split; [reflexivity|].
      intros m. rewrite !elem_of_cons, elem_of_nil. intuition discriminate.
Qed.

Lemma failed_refresh_keeps_cache_witness :
  let env := ex_env (DoResp 500 (ReadOk "resp")) in
  refresh_result env
    (upstream env (length (calls_of (trace ex_world)))
       (refresh_proxy_request env "eth_gasPrice")) = None /\
  cacheResponse (snd (cacheWorker_cycle env "eth_gasPrice" ex_world)) = cacheResponse ex_world.
Proof.
  intros env. split; [reflexivity|].
  apply (failed_refresh_keeps_cache env "eth_gasPrice" ex_world). right. reflexivity.
Defined.

(** A worker whose request cannot be built only logs and waits. *)
Lemma cacheWorker_bad_run env method n w :
  new_request_ok env "POST" (NODE_ENDPOINT env) = false ->
  snd (cacheWorker env method n w) =
    {| cacheResponse := cacheResponse w;
       trace := trace w ++ concat (repeat [ELog ErrNewRequest; ELog ErrNewRequest; EWait] n) |}.
Proof.
  intros Hbad. revert w. induction n as [|n IH]; intros w.
  - destruct w. simpl. by rewrite app_nil_r.
  - rewrite cacheWorker_S, IH, (cacheWorker_cycle_bad env method w Hbad). simpl.
    by rewrite <- app_assoc.
Qed.

(** C3 (as the code has it): from its start, a worker's loop is a
    sequence of cycles, each of which first calls the node with the
    synthesized request, then either stores the decoded response (when the
    node answered 200 with a decodable body) or only logs, and then waits
    for the ticker; there is no wait before the first call, and any number
    [n] of iterations runs [n] complete cycles. When [http.NewRequest]
    rejects a POST to the configured endpoint, no call is ever made: each
    iteration logs the construction error (twice) and waits. *)
Theorem worker_cycle_order (env : Env) (method : string) (n : nat) (w : world) :
  (new_request_ok env "POST" (NODE_ENDPOINT env) = true ->
   exists segs, length segs = n /\
     trace (snd (cacheWorker env method n w)) = trace w ++ concat segs /\
     forall i seg, segs !! i = Some seg ->
       cycle_shape env method (length (calls_of (trace w)) + i) seg) /\
  (new_request_ok env "POST" (NODE_ENDPOINT env) = false ->
   snd (cacheWorker env method n w) =
     {| cacheResponse := cacheResponse w;
        trace := trace w ++ concat (repeat [ELog ErrNewRequest; ELog ErrNewRequest; EWait] n) |}).
Proof.
  split; [|apply cacheWorker_bad_run].
  intros Hok. revert w. induction n as [|n IH]; intros w.
  - exists []. split; [reflexivity|]. split; [simpl; by rewrite app_nil_r|].
    intros i seg H. rewrite lookup_nil in H. discriminate.
  - rewrite cacheWorker_S.
    destruct (cacheWorker_cycle_ok env method w Hok) as [mid [Heq Hmid]].
    set (preq := refresh_proxy_request env method) in *.
    assert (Hcalls : calls_of mid = []).
    { destruct (refresh_result env _); [subst mid; reflexivity|].
      apply calls_of_logs, Hmid. }
    rewrite Heq.
    destruct (IH (Build_world
                    (match refresh_result env
                             (upstream env (length (calls_of (trace w))) preq) with
                     | Some jr => <[method:=jr]> (cacheResponse w)
                     | None => cacheResponse w
                     end)
                    (trace w ++ [ECall preq] ++ mid ++ [EWait])))
      as [segs [Hlen [Htr Hshape]]].
    exists (([ECall preq] ++ mid ++ [EWait]) :: segs).
    split; [simpl; by rewrite Hlen|]. split.
    + rewrite Htr. simpl. rewrite <- app_assoc. simpl. by rewrite <- ?app_assoc.
    + intros [|i] seg Hi.
      * simpl in Hi. injection Hi as <-. exists mid. split; [reflexivity|].
        rewrite Nat.add_0_r. exact Hmid.
      * simpl in Hi. specialize (Hshape i seg Hi). simpl in Hshape.
        assert (Hseg : calls_of (ECall preq :: mid ++ [EWait]) = [preq]).
        { change (calls_of (ECall preq :: mid ++ [EWait]))
            with (preq :: calls_of (mid ++ [EWait])).
          rewrite calls_of_app, Hcalls. reflexivity. }
        rewrite calls_of_app, Hseg, length_app in Hshape. simpl in Hshape.
        replace (length (calls_of (trace w)) + S i)%nat
          with (length (calls_of (trace w)) + 1 + i)%nat by lia.
        exact Hshape.
Qed.

Lemma worker_cycle_order_witness :
  let env := ex_env (DoResp 200 (ReadOk "resp")) in
  new_request_ok env "POST" (NODE_ENDPOINT env) = true /\
  exists segs, length segs = 2%nat /\
    trace (snd (cacheWorker env "eth_gasPrice" 2 NewNodeCache)) = concat segs.
Proof.
  intros env. split; [reflexivity|].
  destruct (proj1 (worker_cycle_order env "eth_gasPrice" 2 NewNodeCache) eq_refl)
    as [segs [Hlen [Htr _]]].
  exists segs. split; [exact Hlen|]. exact Htr.
Defined.

(** C3 counterexample: the first thing a worker does is call the node;
    it does not start by waiting one interval. *)
Lemma worker_starts_with_call :
  let env := ex_env (DoResp 200 (ReadOk "resp")) in
  head (trace (snd (cacheWorker env "eth_gasPrice" 2 NewNodeCache)))
    = Some (ECall (refresh_proxy_request env "eth_gasPrice")) /\
  head (trace (snd (cacheWorker env "eth_gasPrice" 2 NewNodeCache))) <> Some EWait.
Proof. split; [reflexivity | discriminate]. Qed.

Definition ex_req : http_request :=
  {| hr_method := "POST"; hr_url := "http://node:8545"; hr_headers := [];
     hr_body := "req42" |}.

(** C4 (as the code has it): [callMethod] makes exactly one call; it
    returns a body exactly when the node answered status 200 and the body
    was read in full, and then returns that body; any other status gives
    the error carrying that status (the body is not read); a transport
    failure gives an error, and so does a failure to read the body of a
    200 answer. *)
Theorem callMethod_contract (env : Env) (req : http_request) (w : world) :
  let ans := upstream env (length (calls_of (trace w))) req in
  let r := fst (callMethod env req w) in
  (forall b, r = Ok b <-> ans = DoResp 200 (ReadOk b)) /\
  (forall status rb, ans = DoResp status rb -> status <> 200 -> r = Err (ErrStatus status)) /\
  (ans = DoErr -> r = Err ErrTransport) /\
  (ans = DoResp 200 ReadErr -> r = Err ErrRead) /\
  calls_of (trace (snd (callMethod env req w))) = calls_of (trace w) ++ [req].
Proof.
  intros ans r. destruct (callMethod_result env req w) as [Hr Hc].
  fold ans in Hr. fold r in Hr.
  split; [|split; [|split; [|split]]]; try exact Hc.
  - intros b. rewrite Hr. destruct ans as [|status [b'|]]; simpl.
    + split; discriminate.
    + destruct (Z.eqb status 200) eqn:E.
      * apply Z.eqb_eq in E. subst. split; congruence.
      * apply Z.eqb_neq in E. split; [discriminate|congruence].
    + destruct (Z.eqb status 200); split; discriminate.
  - intros status rb -> Hne. rewrite Hr.
    destruct (Z.eqb status 200) eqn:E; [apply Z.eqb_eq in E; contradiction|reflexivity].
  - intros ->. exact Hr.
  - intros ->. exact Hr.
Qed.

Lemma callMethod_contract_witness :
  let env := ex_env (DoResp 200 ReadErr) in
  upstream env 0 ex_req = DoResp 200 ReadErr /\
  fst (callMethod env ex_req NewNodeCache) = Err ErrRead.
Proof.
  intros env. split; [reflexivity|].
  destruct (callMethod_contract env ex_req NewNodeCache) as [_ [_ [_ [H _]]]].
  apply H. reflexivity.
Defined.

(** C4 counterexample: the node answers status 200 but its body cannot be
    read; no body is returned. *)
Lemma callMethod_200_without_body :
  let env := ex_env (DoResp 200 ReadErr) in
  upstream env 0 ex_req = DoResp 200 ReadErr /\
  fst (callMethod env ex_req NewNodeCache) = Err ErrRead.
Proof. split; reflexivity. Qed.

(** ** The passthrough path *)

(** The request [cloneRequest] builds from an inbound request whose body
    was read as [body]. *)
Definition forward_request (env : Env) (req : inbound_request) (body : string) : http_request :=
  {| hr_method := in_method req; hr_url := NODE_ENDPOINT env;
     hr_headers := [("User-Agent", user_agent)]; hr_body := body |}.

Lemma HandleRequest_forward env req w body :
  in_body req = ReadOk body ->
  (forall message, unmarshal_message env body = Ok message ->
     cacheResponse w !! msg_Method message = None) ->
  HandleRequest env req w =
    if new_request_ok env (in_method req) (NODE_ENDPOINT env)
    then callMethod env (forward_request env req body) w
    else (Err ErrNewRequest,
          {| cacheResponse := cacheResponse w;
             trace := trace w ++ [ELog ErrNewRequest; ELog ErrNewRequest] |}).
Proof.
  intros Hb Hmiss. unfold HandleRequest. rewrite Hb.
  assert (Hhit : (match unmarshal_message env body with
                  | Ok message =>
                      cacheResp ← GetCacheResponse env message;
                      match cacheResp with
                      | Ok b => mret (Some b)
                      | Err _ => mret None
                      end
                  | Err _ => mret None
                  end : M (option string)) w = (None, w)).
  { destruct (unmarshal_message env body) as [message|e] eqn:Hm; [|reflexivity].
    unfold mbind, M_bind. rewrite GetCacheResponse_eq, (Hmiss message eq_refl).
    reflexivity. }
  unfold mbind at 1, M_bind at 1. rewrite Hhit.
  unfold cloneRequest, log, emit, mbind, M_bind, mret, M_ret. simpl.
  destruct (new_request_ok env (in_method req) (NODE_ENDPOINT env)); simpl;
    [reflexivity|]. f_equal. f_equal. by rewrite <- app_assoc.
Qed.

(** C6 (as the code has it): for an inbound request whose body is read
    and whose method has no cache entry (or whose body does not decode),
    when the outbound request can be built, [HandleRequest] makes exactly
    one upstream call, carrying the inbound body verbatim, the inbound HTTP
    method and only the fixed User-Agent header, to [NODE_ENDPOINT]; it
    returns the node's body unchanged when the node answers 200 and the
    body is read, the status error when the node answers another status,
    and never the cache miss error. *)
Theorem handle_miss_forwards_once (env : Env) (req : inbound_request) (w : world)
  (body : string) :
  in_body req = ReadOk body ->
  (forall message, unmarshal_message env body = Ok message ->
     cacheResponse w !! msg_Method message = None) ->
  new_request_ok env (in_method req) (NODE_ENDPOINT env) = true ->
  let preq := forward_request env req body in
  let ans := upstream env (length (calls_of (trace w))) preq in
  let r := fst (HandleRequest env req w) in
  calls_of (trace (snd (HandleRequest env req w))) = calls_of (trace w) ++ [preq] /\
  hr_body preq = body /\
  hr_headers preq = [("User-Agent", user_agent)] /\
  (forall b, r = Ok b <-> ans = DoResp 200 (ReadOk b)) /\
  (forall status rb, ans = DoResp status rb -> status <> 200 -> r = Err (ErrStatus status)) /\
  (forall m, r <> Err (ErrNotCached m)).
Proof.
  intros Hb Hmiss Hok preq ans r. unfold r, ans, preq.
  rewrite (HandleRequest_forward env req w body Hb Hmiss), Hok.
  destruct (callMethod_result env (forward_request env req body) w) as [Hr Hc].
  split; [exact Hc|]. split; [reflexivity|]. split; [reflexivity|].
  rewrite Hr.
  set (a := upstream env (length (calls_of (trace w))) (forward_request env req body)).
  clearbody a. split; [|split].
  - intros b. destruct a as [|status [b'|]]; simpl.
    + split; discriminate.
    + destruct (Z.eqb status 200) eqn:E.
      * apply Z.eqb_eq in E. subst. split; congruence.
      * apply Z.eqb_neq in E. split; [discriminate|congruence].
    + destruct (Z.eqb status 200); split; discriminate.
  - intros status rb -> Hne.
    destruct (Z.eqb status 200) eqn:E; [apply Z.eqb_eq in E; contradiction|reflexivity].
  - intros m. destruct a as [|status [b'|]]; simpl; [discriminate|..];
      destruct (Z.eqb status 200); discriminate.
Qed.

Definition ex_bad_endpoint_env : Env :=
  {| parse_json := ex_parse;
     render_json := fun _ => "rendered";
     NODE_ENDPOINT := "http://[::1";
     new_request_ok := fun _ url => negb (String.eqb url "http://[::1");
     upstream := fun _ _ => DoResp 200 (ReadOk "resp") |}.

Lemma handle_miss_forwards_once_witness :
  let env := ex_env (DoResp 200 (ReadOk "0x10")) in
  new_request_ok env "POST" (NODE_ENDPOINT env) = true /\
  calls_of (trace (snd (HandleRequest env (ex_inbound "req42") NewNodeCache)))
    = [forward_request env (ex_inbound "req42") "req42"] /\
  fst (HandleRequest env (ex_inbound "req42") NewNodeCache) = Ok "0x10".
Proof.
  intros env. split; [reflexivity|].
  destruct (handle_miss_forwards_once env (ex_inbound "req42") NewNodeCache "req42"
              eq_refl (fun m _ => eq_refl) eq_refl)
    as [Hc [_ [_ [Hok _]]]].
  split; [exact Hc|]. apply Hok. reflexivity.
Defined.

(** C6 counterexample: on a miss, a node answering status 500 with a body
    does not have that body relayed (the caller gets the status error), and
    with an endpoint [http.NewRequest] rejects, no upstream call is made. *)
Lemma handle_miss_status_not_relayed :
  let env := ex_env (DoResp 500 (ReadOk "upstream error body")) in
  fst (HandleRequest env (ex_inbound "req42") NewNodeCache) = Err (ErrStatus 500) /\
  calls_of (trace (snd (HandleRequest ex_bad_endpoint_env (ex_inbound "req42") NewNodeCache)))
    = [].
Proof. split; reflexivity. Qed.

(** C7: when the inbound body does not decode as a [JSONRPCMessage], the
    cache is not consulted (the answer is the same whatever the map holds)
    and the raw body is sent as it is: [HandleRequest] is the forwarding
    path with that body, and fails locally only when the outbound request
    cannot be built. *)
Theorem handle_unparsed_passthrough (env : Env) (req : inbound_request) (w : world)
  (body : string) (e : error) :
  in_body req = ReadOk body ->
  unmarshal_message env body = Err e ->
  HandleRequest env req w =
    (if new_request_ok env (in_method req) (NODE_ENDPOINT env)
     then callMethod env (forward_request env req body) w
     else (Err ErrNewRequest,
           {| cacheResponse := cacheResponse w;
              trace := trace w ++ [ELog ErrNewRequest; ELog ErrNewRequest] |})) /\
  hr_body (forward_request env req body) = body /\
  (forall c, fst (HandleRequest env req {| cacheResponse := c; trace := trace w |})
             = fst (HandleRequest env req w)).
Proof.
  intros Hb Hm.
  assert (Hmiss : forall (w' : world) message, unmarshal_message env body = Ok message ->
            cacheResponse w' !! msg_Method message = None)
    by (intros w' message H; congruence).
  split; [apply HandleRequest_forward; auto|]. split; [reflexivity|].
  intros c.
  rewrite !(HandleRequest_forward env req _ body Hb (Hmiss _)).
  destruct (new_request_ok env (in_method req) (NODE_ENDPOINT env)); [|reflexivity].
  destruct (callMethod_result env (forward_request env req body)
              {| cacheResponse := c; trace := trace w |}) as [H1 _].
  destruct (callMethod_result env (forward_request env req body) w) as [H2 _].
  rewrite H1, H2. reflexivity.
Qed.

Lemma handle_unparsed_passthrough_witness :
  let env := ex_env (DoResp 200 (ReadOk "0x10")) in
  in_body (ex_inbound "not json") = ReadOk "not json" /\
  unmarshal_message env "not json" = Err ErrUnmarshal /\
  fst (HandleRequest env (ex_inbound "not json") ex_world) = Ok "0x10".
Proof.
  intros env. split; [reflexivity|]. split; [reflexivity|].
  destruct (handle_unparsed_passthrough env (ex_inbound "not json") ex_world
              "not json" ErrUnmarshal eq_refl eq_refl) as [H _].
  rewrite H. reflexivity.
Defined.

(** ** The refresh envelope *)

(** C9: the envelope a refresh cycle sends for a method carries
    ["jsonrpc": "2.0"] and the method, but, although [makeRequest] sets
    [Params] to an empty slice, the [omitempty] tag drops it (and the zero
    [ID]) from the encoding: the body has no ["params"] field. *)
Theorem refresh_envelope_drops_params (env : Env) (w : world) (method : string) :
  method <> "" ->
  marshal_message (refresh_message method)
    = JObj [("jsonrpc", JStr "2.0"); ("method", JStr method)] /\
  ("params" ∉ obj_keys (marshal_message (refresh_message method))) /\
  msg_Params (refresh_message method) = [] /\
  (new_request_ok env "POST" (NODE_ENDPOINT env) = true ->
   fst (makeRequest env method w)
     = Ok {| hr_method := "POST"; hr_url := NODE_ENDPOINT env; hr_headers := [];
             hr_body := render_json env (JObj [("jsonrpc", JStr "2.0"); ("method", JStr method)]) |}).
Proof.
  intros Hne.
  assert (Hm : marshal_message (refresh_message method)
               = JObj [("jsonrpc", JStr "2.0"); ("method", JStr method)]).
  { unfold marshal_message, refresh_message, omit_string, omit_int. simpl.
    destruct (String.eqb method "") eqn:E; [apply String.eqb_eq in E; contradiction|].
    reflexivity. }
  split; [exact Hm|]. split; [|split; [reflexivity|]].
  - rewrite Hm. simpl. rewrite !elem_of_cons, elem_of_nil. intuition discriminate.
  - intros Hok. unfold makeRequest. rewrite Hok, Hm. reflexivity.
Qed.

Lemma refresh_envelope_drops_params_witness :
  "eth_gasPrice" <> "" /\
  "params" ∉ obj_keys (marshal_message (refresh_message "eth_gasPrice")).
Proof.
  split; [discriminate|].
  apply (refresh_envelope_drops_params (ex_env DoErr) NewNodeCache "eth_gasPrice").
  discriminate.
Defined.

(** * Further properties of the node cache *)

Definition ex_parse2 (s : string) : option json :=
  if String.eqb s "req42p"
  then Some (JObj [("jsonrpc", JStr "1.0"); ("id", JNum 42); ("method", JStr "eth_gasPrice");
                   ("params", JArr [JStr "latest"])])
  else ex_parse s.

Definition ex_env2 (answer : do_result) : Env :=
  {| parse_json := ex_parse2;
     render_json := fun _ => "rendered";
     NODE_ENDPOINT := "http://node:8545";
     new_request_ok := fun _ _ => true;
     upstream := fun _ _ => answer |}.

(** [run] starts workers only for the methods of the registry: an execution
    is registered when all its worker cycles are for registry methods. *)
Definition registered (reg : list string) (steps : list sys_step) : Prop :=
  Forall (fun s => match s with SWorker m => m ∈ reg | SHandle _ => True end) steps.

Lemma HandleRequest_keeps env req : keeps_cache (HandleRequest env req).
Proof.
  unfold HandleRequest. keeps;
    auto using GetCacheResponse_keeps, cloneRequest_keeps, callMethod_keeps.
Qed.

Lemma decode_strings_map ps : decode_strings (map JStr ps) = Some ps.
Proof. induction ps as [|p ps IH]; simpl; [reflexivity|]. by rewrite IH. Qed.

Lemma cacheWorker_cycle_cache env method w :
  cacheResponse (snd (cacheWorker_cycle env method w)) = cacheResponse w \/
  exists jr, cacheResponse (snd (cacheWorker_cycle env method w))
             = <[method := jr]> (cacheResponse w).
Proof.
  destruct (new_request_ok env "POST" (NODE_ENDPOINT env)) eqn:Hok.
  - destruct (cacheWorker_cycle_ok env method w Hok) as [mid [Heq _]].
    rewrite Heq. simpl. destruct (refresh_result env _) as [jr|]; [right; by exists jr|by left].
  - left. by rewrite (cacheWorker_cycle_bad env method w Hok).
Qed.

Lemma HandleRequest_calls env req w :
  (length (calls_of (trace (snd (HandleRequest env req w))))
   <= length (calls_of (trace w)) + 1)%nat.
Proof.
  destruct (in_body req) as [body|] eqn:Hb.
  - assert (Hfwd : (forall message, unmarshal_message env body = Ok message ->
                      cacheResponse w !! msg_Method message = None) ->
                   (length (calls_of (trace (snd (HandleRequest env req w))))
                    <= length (calls_of (trace w)) + 1)%nat).
    { intros Hmiss. rewrite (HandleRequest_forward env req w body Hb Hmiss).
      destruct (new_request_ok env (in_method req) (NODE_ENDPOINT env)).
      - destruct (callMethod_result env (forward_request env req body) w) as [_ Hc].
        rewrite Hc, length_app. simpl. lia.
      - simpl. rewrite calls_of_app. simpl. rewrite app_nil_r. lia. }
    destruct (unmarshal_message env body) as [message|e] eqn:Hm.
    + destruct (cacheResponse w !! msg_Method message) as [cached|] eqn:Hc.
      * rewrite (HandleRequest_hit env req w body message cached Hb Hm Hc). simpl. lia.
      * apply Hfwd. intros m' Hm'. congruence.
    + apply Hfwd. intros m' Hm'. congruence.
  - unfold HandleRequest. rewrite Hb. simpl.
    rewrite calls_of_app. simpl. rewrite app_nil_r. lia.
Qed.

Lemma cacheWorker_cycle_calls env method w :
  (length (calls_of (trace (snd (cacheWorker_cycle env method w))))
   <= length (calls_of (trace w)) + 1)%nat.
Proof.
  destruct (new_request_ok env "POST" (NODE_ENDPOINT env)) eqn:Hok.
  - destruct (cacheWorker_cycle_ok env method w Hok) as [mid [Heq Hmid]].
    assert (Hcalls : calls_of mid = []).
    { destruct (refresh_result env _); [by subst mid|].
      apply calls_of_logs, Hmid. }
    rewrite Heq, trace_mk, !calls_of_app, Hcalls. simpl.
    rewrite length_app. simpl. lia.
  - rewrite (cacheWorker_cycle_bad env method w Hok). simpl.
    rewrite calls_of_app. simpl. rewrite app_nil_r. lia.
Qed.

Lemma sys_run_cons env s steps w :
  snd (sys_run env (s :: steps) w) = snd (sys_run env steps (snd (sys_exec env s w))).
Proof. simpl. unfold mbind, M_bind. by destruct (sys_exec env s w). Qed.

Lemma sys_exec_cache env s w :
  cacheResponse (snd (sys_exec env s w)) = cacheResponse w \/
  exists method jr, s = SWorker method /\
    cacheResponse (snd (sys_exec env s w)) = <[method := jr]> (cacheResponse w).
Proof.
  destruct s as [method|req]; simpl.
  - destruct (cacheWorker_cycle_cache env method w) as [H|[jr H]]; [by left|right].
    by exists method, jr.
  - left. unfold mbind, M_bind.
    pose proof (HandleRequest_keeps env req w) as Hk.
    destruct (HandleRequest env req w). exact Hk.
Qed.

(** X1 (SetCacheResponse, GetCacheResponse): after storing [r] under
    [method], a lookup for a message of that method returns [r] under the
    message's id, and a lookup for any other method returns what it
    returned before. *)
Theorem put_then_get (env : Env) (method : string) (r : JSONRPCResponse)
    (w : world) (message : JSONRPCMessage) :
  fst (GetCacheResponse env message (snd (SetCacheResponse method r w))) =
    if String.eqb (msg_Method message) method
    then Ok (render_json env (marshal_response (with_ID r (msg_ID message))))
    else fst (GetCacheResponse env message w).
Proof.
  unfold GetCacheResponse, SetCacheResponse, read_cache, mbind, M_bind, mret, M_ret.
  simpl. destruct (String.eqb_spec (msg_Method message) method) as [->|Hne].
  - by rewrite lookup_insert_eq.
  - rewrite lookup_insert_ne by congruence.
    by destruct (cacheResponse w !! msg_Method message).
Qed.

(** X2 (HandleRequest, GetCacheResponse): the cache is keyed by the method
    alone: two inbound requests whose bodies decode to messages with the
    same method and id, the method being cached, get the same answer and
    leave the same world, whatever their params, version or raw bytes. *)
Theorem hit_ignores_params (env : Env) (w : world) (req1 req2 : inbound_request)
    (body1 body2 : string) (m1 m2 : JSONRPCMessage) (cached : JSONRPCResponse) :
  in_body req1 = ReadOk body1 -> in_body req2 = ReadOk body2 ->
  unmarshal_message env body1 = Ok m1 -> unmarshal_message env body2 = Ok m2 ->
  msg_Method m1 = msg_Method m2 -> msg_ID m1 = msg_ID m2 ->
  cacheResponse w !! msg_Method m1 = Some cached ->
  HandleRequest env req1 w = HandleRequest env req2 w.
Proof.
  intros Hb1 Hb2 Hm1 Hm2 Hmeth Hid Hc.
  rewrite (HandleRequest_hit env req1 w body1 m1 cached Hb1 Hm1 Hc).
  rewrite Hmeth in Hc.
  rewrite (HandleRequest_hit env req2 w body2 m2 cached Hb2 Hm2 Hc).
  by rewrite Hid.
Qed.

Lemma hit_ignores_params_witness :
  let w := {| cacheResponse := {[ "eth_gasPrice" := ex_cached ]}; trace := [] |} in
  HandleRequest (ex_env2 DoErr) (ex_inbound "req42") w
  = HandleRequest (ex_env2 DoErr) (ex_inbound "req42p") w.
Proof.
  intros w.
  apply (hit_ignores_params (ex_env2 DoErr) w (ex_inbound "req42") (ex_inbound "req42p")
           "req42" "req42p" ex_message42
           {| msg_Version := "1.0"; msg_ID := 42; msg_Method := "eth_gasPrice";
              msg_Params := ["latest"] |} ex_cached);
    reflexivity.
Defined.

(** A result value that Go's decoding into [interface{}] gives back
    unchanged: strings, booleans, [null] inside arrays, arrays, and
    integers of magnitude at most 2^53, which a float64 holds exactly.
    Objects (decoded into maps, losing duplicate keys) and larger numbers
    (rounded to a float64) are excluded. *)
Fixpoint float_exact (j : json) : bool :=
  match j with
  | JNull | JBool _ | JStr _ => true
  | JNum n => Z.abs n <=? 2 ^ 53
  | JArr vs => forallb float_exact vs
  | JObj _ => false
  end.

(** X3 (JSONRPCResponse): decoding the encoding of a response gives it
    back when its id fits in an int and its result is absent or a
    non-null value that a float64-based [interface{}] holds exactly (a
    null result is encoded but decodes to a nil interface). *)
Theorem response_roundtrip (r : JSONRPCResponse) :
  int64_ok (resp_ID r) = true ->
  match resp_Result r with
  | Some j => j <> JNull /\ float_exact j = true
  | None => True
  end ->
  decode_response (marshal_response r) = Some r.
Proof.
  destruct r as [v id res]; simpl. intros Hid Hres.
  unfold marshal_response, omit_string, omit_int; simpl.
  destruct (String.eqb_spec v "") as [->|Hv]; simpl;
  destruct (Z.eqb_spec id 0) as [->|Hz]; simpl; rewrite ?Hid;
  (destruct res as [j|]; [destruct Hres as [Hn _]; destruct j; try congruence|]);
  reflexivity.
Qed.

Lemma response_roundtrip_witness :
  decode_response (marshal_response ex_cached) = Some ex_cached.
Proof. apply response_roundtrip; [reflexivity|split; [discriminate|reflexivity]]. Defined.

(** X4 (JSONRPCMessage): decoding the encoding of a message gives it back
    whenever its id fits in an int; empty fields are omitted on encoding and
    come back as the zero values they were. *)
Theorem message_roundtrip (m : JSONRPCMessage) :
  int64_ok (msg_ID m) = true -> decode_message (marshal_message m) = Some m.
Proof.
  destruct m as [v id meth ps]; simpl. intros Hid.
  unfold marshal_message, omit_string, omit_int; simpl.
  destruct (String.eqb_spec v "") as [->|Hv]; simpl;
  destruct (Z.eqb_spec id 0) as [->|Hz]; simpl; rewrite ?Hid;
  destruct (String.eqb_spec meth "") as [->|Hm]; simpl;
  (destruct ps as [|p ps]; simpl; [reflexivity|]);
  change (JStr p :: map JStr ps) with (map JStr (p :: ps));
  rewrite decode_strings_map; reflexivity.
Qed.

Lemma message_roundtrip_witness :
  decode_message (marshal_message
    {| msg_Version := "1.0"; msg_ID := 42; msg_Method := "eth_gasPrice";
       msg_Params := ["latest"] |})
  = Some {| msg_Version := "1.0"; msg_ID := 42; msg_Method := "eth_gasPrice";
            msg_Params := ["latest"] |}.
Proof. apply message_roundtrip. reflexivity. Defined.

(** X5 (cacheWorker): a refresh cycle whose call is answered with status
    200 and a body that decodes stores exactly the decoded response under
    the method, replacing any previous entry, after one call and before the
    wait. *)
Theorem successful_refresh_stores (env : Env) (method : string) (w : world)
    (b : string) (jr : JSONRPCResponse) :
  new_request_ok env "POST" (NODE_ENDPOINT env) = true ->
  upstream env (length (calls_of (trace w))) (refresh_proxy_request env method)
    = DoResp 200 (ReadOk b) ->
  unmarshal_response env b = Ok jr ->
  snd (cacheWorker_cycle env method w) =
    {| cacheResponse := <[method := jr]> (cacheResponse w);
       trace := trace w ++ [ECall (refresh_proxy_request env method); EStore method; EWait] |}.
Proof.
  intros Hok Hans Hjr.
  destruct (cacheWorker_cycle_ok env method w Hok) as [mid [Heq Hmid]].
  rewrite Hans in Heq, Hmid. unfold refresh_result in Heq, Hmid.
  simpl in Heq, Hmid. rewrite Hjr in Heq, Hmid. subst mid. exact Heq.
Qed.

Lemma successful_refresh_stores_witness :
  snd (cacheWorker_cycle (ex_env (DoResp 200 (ReadOk "resp"))) "eth_gasPrice" ex_world) =
    {| cacheResponse := <[ "eth_gasPrice" := ex_cached ]> (cacheResponse ex_world);
       trace := trace ex_world ++
         [ECall (refresh_proxy_request (ex_env (DoResp 200 (ReadOk "resp"))) "eth_gasPrice");
          EStore "eth_gasPrice"; EWait] |}.
Proof.
  apply (successful_refresh_stores (ex_env (DoResp 200 (ReadOk "resp"))) "eth_gasPrice"
           ex_world "resp" ex_cached); reflexivity.
Defined.

Lemma sys_run_registered_keys env reg steps w :
  registered reg steps ->
  (forall m r, cacheResponse w !! m = Some r -> m ∈ reg) ->
  forall m r, cacheResponse (snd (sys_run env steps w)) !! m = Some r -> m ∈ reg.
Proof.
  intros Hreg. revert w.
  induction Hreg as [|s steps Hs _ IH]; intros w Hw.
  - exact Hw.
  - rewrite sys_run_cons. apply IH. intros m r.
    destruct (sys_exec_cache env s w) as [->|[method [jr [-> ->]]]]; [apply Hw|].
    destruct (String.eqb_spec m method) as [->|Hne]; [intros _; exact Hs|].
    rewrite lookup_insert_ne by congruence. apply Hw.
Qed.

(** X6 (run, cacheWorker): [run] starts workers for the registry methods
    only, so in an execution from [NewNodeCache] whose worker cycles are for
    registry methods, every method with a cache entry is in the registry. *)
Theorem only_registered_cached (env : Env) (reg : list string) (steps : list sys_step)
    (m : string) (r : JSONRPCResponse) :
  registered reg steps ->
  cacheResponse (snd (sys_run env steps NewNodeCache)) !! m = Some r ->
  m ∈ reg.
Proof.
  intros Hreg. apply (sys_run_registered_keys env reg steps NewNodeCache Hreg).
  intros m' r'. simpl. by rewrite lookup_empty.
Qed.

Lemma only_registered_cached_witness : "eth_gasPrice" ∈ ["eth_gasPrice"].
Proof.
  apply (only_registered_cached (ex_env (DoResp 200 (ReadOk "resp"))) ["eth_gasPrice"]
           [SWorker "eth_gasPrice"; SHandle (ex_inbound "req42")] "eth_gasPrice" ex_cached).
  - repeat constructor.
  - vm_compute. reflexivity.
Defined.

(** X7 (run, cacheMethods, HandleRequest): with the registry of the source,
    [cacheMethods = []], no worker runs: the cache of every execution stays
    empty and every request whose body can be read is forwarded to the
    node, even one for a method that could be cached. *)
Theorem default_registry_never_caches (env : Env) (steps : list sys_step) :
  registered cacheMethods steps ->
  let w := snd (sys_run env steps NewNodeCache) in
  cacheResponse w = ∅ /\
  forall req body, in_body req = ReadOk body ->
    HandleRequest env req w =
      if new_request_ok env (in_method req) (NODE_ENDPOINT env)
      then callMethod env (forward_request env req body) w
      else (Err ErrNewRequest,
            {| cacheResponse := cacheResponse w;
               trace := trace w ++ [ELog ErrNewRequest; ELog ErrNewRequest] |}).
Proof.
  intros Hreg w.
  assert (Hempty : cacheResponse w = ∅).
  { apply map_eq. intros m. rewrite lookup_empty.
    destruct (cacheResponse w !! m) as [r|] eqn:Hm; [|reflexivity].
    exfalso. apply (sys_run_registered_keys env cacheMethods steps NewNodeCache Hreg)
      in Hm; [by apply elem_of_nil in Hm|].
    intros m' r'. simpl. by rewrite lookup_empty. }
  split; [exact Hempty|].
  intros req body Hb. apply HandleRequest_forward; [exact Hb|].
  intros message _. by rewrite Hempty, lookup_empty.
Qed.

Lemma default_registry_never_caches_witness :
  cacheResponse (snd (sys_run (ex_env DoErr) [SHandle (ex_inbound "req42")] NewNodeCache)) = ∅.
Proof.
  apply (default_registry_never_caches (ex_env DoErr) [SHandle (ex_inbound "req42")]).
  repeat constructor.
Defined.

(** X8 (cacheWorker, makeRequest): when [http.NewRequest] rejects the
    configured endpoint, a worker never calls the node and never touches
    the cache: each of its iterations only logs the error twice and waits. *)
Theorem worker_bad_endpoint (env : Env) (method : string) (n : nat) (w : world) :
  new_request_ok env "POST" (NODE_ENDPOINT env) = false ->
  snd (cacheWorker env method n w) =
    {| cacheResponse := cacheResponse w;
       trace := trace w ++ concat (repeat [ELog ErrNewRequest; ELog ErrNewRequest; EWait] n) |}.
Proof. apply cacheWorker_bad_run. Qed.

Lemma worker_bad_endpoint_witness :
  snd (cacheWorker ex_bad_endpoint_env "eth_gasPrice" 2 ex_world) =
    {| cacheResponse := cacheResponse ex_world;
       trace := [ELog ErrNewRequest; ELog ErrNewRequest; EWait;
                 ELog ErrNewRequest; ELog ErrNewRequest; EWait] |}.
Proof. apply (worker_bad_endpoint ex_bad_endpoint_env "eth_gasPrice" 2 ex_world). reflexivity. Defined.

(** X9 (HandleRequest, cacheWorker): every worker cycle and every request
    handling makes at most one call to the node, so an execution never
    makes more calls than it has steps. *)
Theorem upstream_calls_bounded (env : Env) (steps : list sys_step) (w : world) :
  (length (calls_of (trace (snd (sys_run env steps w))))
   <= length (calls_of (trace w)) + length steps)%nat.
Proof.
  revert w. induction steps as [|s steps IH]; intros w; [simpl; lia|].
  rewrite sys_run_cons. etransitivity; [apply IH|].
  assert (Hs : (length (calls_of (trace (snd (sys_exec env s w))))
                <= length (calls_of (trace w)) + 1)%nat).
  { destruct s as [method|req]; simpl; [apply cacheWorker_cycle_calls|].
    unfold mbind, M_bind. pose proof (HandleRequest_calls env req w) as H.
    destruct (HandleRequest env req w). exact H. }
  simpl. lia.
Qed.

(** * The HTTP server (package http, server.go)

    The persister is an external interface; a handler sees a snapshot of
    its getters. A [gin.H] map is written by encoding/json with its keys in
    sorted order. A handler's effects are the list of its outputs:
    [log.Print] lines and [c.JSON] writes, in order. *)

Definition MAX_PAGE_SIZE : Z := 50.
Definition DEFAULT_PAGE : Z := 1.

Record Persister := {
  GetRate : json;
  GetIsNewEvent : bool;
  GetEvent : json;
  GetIsNewLatestBlock : bool;
  GetLatestBlock : json;
  GetIsNewRateUSD : bool;
  GetRateUSD : json;
  GetNewKyberEnabled : bool;
  GetKyberEnabled : json;
  GetNewMaxGasPrice : bool;
  GetMaxGasPrice : json;
  GetNewGasPrice : bool;
  GetGasPrice : json;
  GetTokenInfo : json;
  GetMarketData : Z -> Z -> json;
  GetIsNewMarketInfo : bool
}.

Inductive output :=
| OLog (line : json)
| OJSON (code : Z) (body : json).

(** ** strconv.ParseUint(s, 10, 64) *)

Inductive num_error := ErrSyntax | ErrRange.

Definition maxUint64 : Z := 2 ^ 64 - 1.
(** [cutoff = maxUint64/base + 1] *)
Definition cutoff : Z := maxUint64 / 10 + 1.

(** The digit value of a byte: ['0'..'9'], or ['a'..'z'] after lowering,
    counted from 10; [None] for any other byte. *)
Definition digit_val (c : ascii) : option Z :=
  let n := Z.of_nat (nat_of_ascii c) in
  let lc := Z.lor n 32 in
  if (48 <=? n) && (n <=? 57) then Some (n - 48)
  else if (97 <=? lc) && (lc <=? 122) then Some (lc - 97 + 10)
  else None.

Fixpoint parse_uint_loop (s : string) (n : Z) : Z * option num_error :=
  match s with
  | EmptyString => (n, None)
  | String c s' =>
      match digit_val c with
      | None => (0, Some ErrSyntax)
      | Some d =>
          if 10 <=? d then (0, Some ErrSyntax)
          else if cutoff <=? n then (maxUint64, Some ErrRange)
          else
            let n' := n * 10 in
            let n1 := (n' + d) mod 2 ^ 64 in
            if (n1 <? n') || (maxUint64 <? n1) then (maxUint64, Some ErrRange)
            else parse_uint_loop s' n1
      end
  end.

Definition ParseUint (s : string) : Z * option num_error :=
  if String.eqb s "" then (0, Some ErrSyntax) else parse_uint_loop s 0.

(** ** Handlers *)

(** The query parsing of [GetMarketInfo]:
    [if err != nil || (err == nil && num <= 0) { num = dflt }]. *)
Definition query_param (s : string) (dflt : Z) : Z * list output :=
  let '(num, err) := ParseUint s in
  if match err with Some _ => true | None => num <=? 0 end
  then (dflt, [OLog (JNum num)])
  else (num, []).

Definition GetMarketInfo (p : Persister) (pageSizeString pageNumString : string) : list output :=
  let '(pageSizeNum, log1) := query_param pageSizeString MAX_PAGE_SIZE in
  let '(pageNumUint, log2) := query_param pageNumString DEFAULT_PAGE in
  let data := GetMarketData p pageNumUint pageSizeNum in
  log1 ++ log2 ++
  [OJSON 200 (JObj [("data", data);
                    ("status", JStr (if GetIsNewMarketInfo p then "latest" else "old"));
                    ("success", JBool true)])].

(** The outcome of [ioutil.ReadFile("error.log")]: the bytes read, and the
    error if any ([nil] bytes when the file cannot be opened). *)
Inductive file_result :=
| FileOk (dat : string)
| FileErr (dat : string) (err : json).

(** [GetErrorLog]: the [if err != nil] branch has no [return]. *)
Definition GetErrorLog (f : file_result) : list output :=
  let '(dat, err_out) :=
    match f with
    | FileOk dat => (dat, [])
    | FileErr dat err =>
        (dat, [OLog err; OJSON 200 (JObj [("data", err); ("success", JBool false)])])
    end in
  err_out ++ [OJSON 200 (JObj [("data", JStr dat); ("success", JBool true)])].

(** ** Run: the routes registered on the engine *)

Inductive handler :=
| HGetEvent | HGetLatestBlock | HGetRateUSD | HGetRate | HGetTokenInfo
| HGetKyberEnabled | HGetMaxGasPrice | HGetGasPrice | HGetMarketInfo | HGetErrorLog.

Definition error_log_path : string := "/9d74529bc6c25401a2f984ccc9b0b2b3".

(** [KYBER_ENV] is [os.Getenv("KYBER_ENV")]. *)
Definition Run_routes (KYBER_ENV : string) : list (string * handler) :=
  [("/getHistoryOneColumn", HGetEvent);
   ("/getLatestBlock", HGetLatestBlock);
   ("/getRateUSD", HGetRateUSD);
   ("/getRate", HGetRate);
   ("/getTokenInfo", HGetTokenInfo);
   ("/getKyberEnabled", HGetKyberEnabled);
   ("/getMaxGasPrice", HGetMaxGasPrice);
   ("/getGasPrice", HGetGasPrice);
   ("/getMarketInfo", HGetMarketInfo)]
  ++ (if negb (String.eqb KYBER_ENV "production")
      then [(error_log_path, HGetErrorLog)] else []).

(** Spec side of the query parsing: the value of a non-empty string of
    decimal digits. *)
Fixpoint decimal_loop (s : string) (acc : Z) : option Z :=
  match s with
  | EmptyString => Some acc
  | String c s' =>
      let k := Z.of_nat (nat_of_ascii c) in
      if (48 <=? k) && (k <=? 57) then decimal_loop s' (acc * 10 + (k - 48)) else None
  end.

Definition decimal_value (s : string) : option Z :=
  if String.eqb s "" then None else decimal_loop s 0.

Lemma maxUint64_eq : maxUint64 = 18446744073709551615.
Proof. reflexivity. Qed.

Lemma cutoff_eq : cutoff = 1844674407370955162.
Proof. reflexivity. Qed.

Lemma pow64_eq : 2 ^ 64 = 18446744073709551616.
Proof. reflexivity. Qed.

Lemma decimal_loop_mono s a v : 0 <= a -> decimal_loop s a = Some v -> a <= v.
Proof.
  revert a. induction s as [|c s IH]; intros a Ha; simpl.
  - intros [= ->]. lia.
  - destruct ((48 <=? Z.of_nat (nat_of_ascii c)) && (Z.of_nat (nat_of_ascii c) <=? 57))
      eqn:Hd; [|discriminate].
    apply andb_true_iff in Hd as [Hd1 Hd2]. apply Z.leb_le in Hd1, Hd2.
    intros Hv. apply IH in Hv; lia.
Qed.

Lemma parse_uint_loop_spec s n :
  0 <= n <= maxUint64 ->
  match parse_uint_loop s n with
  | (v, None) => decimal_loop s n = Some v /\ v <= maxUint64
  | (_, Some _) => match decimal_loop s n with Some v => maxUint64 < v | None => True end
  end.
Proof.
  revert n. induction s as [|c s IH]; intros n Hn; simpl; [split; [reflexivity|lia]|].
  set (k := Z.of_nat (nat_of_ascii c)).
  unfold digit_val. fold k.
  destruct ((48 <=? k) && (k <=? 57)) eqn:Hd.
  - apply andb_true_iff in Hd as [Hd1 Hd2]. apply Z.leb_le in Hd1, Hd2.
    replace (10 <=? k - 48) with false by (symmetry; apply Z.leb_gt; lia).
    destruct (cutoff <=? n) eqn:Hc.
    + apply Z.leb_le in Hc. rewrite cutoff_eq in Hc.
      destruct (decimal_loop s (n * 10 + (k - 48))) as [v|] eqn:Hv; [|exact I].
      apply decimal_loop_mono in Hv; [|lia]. rewrite maxUint64_eq. lia.
    + apply Z.leb_gt in Hc. rewrite cutoff_eq in Hc. rewrite maxUint64_eq in Hn |- *.
      rewrite pow64_eq.
      destruct (Z.lt_ge_cases (n * 10 + (k - 48)) 18446744073709551616) as [Hs|Hl].
      * rewrite Z.mod_small by lia.
        replace (n * 10 + (k - 48) <? n * 10) with false by (symmetry; apply Z.ltb_ge; lia).
        replace (18446744073709551615 <? n * 10 + (k - 48)) with false
          by (symmetry; apply Z.ltb_ge; lia).
        simpl. specialize (IH (n * 10 + (k - 48))). rewrite maxUint64_eq in IH. apply IH. lia.
      * assert (Hm : (n * 10 + (k - 48)) mod 18446744073709551616
                     = n * 10 + (k - 48) - 18446744073709551616).
        { symmetry. apply (Z.mod_unique _ _ 1); lia. }
        rewrite Hm.
        replace (n * 10 + (k - 48) - 18446744073709551616 <? n * 10) with true
          by (symmetry; apply Z.ltb_lt; lia).
        simpl.
        destruct (decimal_loop s (n * 10 + (k - 48))) as [v|] eqn:Hv; [|exact I].
        apply decimal_loop_mono in Hv; lia.
  - destruct ((97 <=? Z.lor k 32) && (Z.lor k 32 <=? 122)) eqn:Hl; [|exact I].
    apply andb_true_iff in Hl as [Hl1 _]. apply Z.leb_le in Hl1.
    replace (10 <=? Z.lor k 32 - 97 + 10) with true by (symmetry; apply Z.leb_le; lia).
    exact I.
Qed.

Lemma query_param_value s d :
  fst (query_param s d) =
    match decimal_value s with
    | Some v => if (1 <=? v) && (v <=? maxUint64) then v else d
    | None => d
    end.
Proof.
  unfold query_param, ParseUint, decimal_value.
  destruct (String.eqb s "") eqn:He; [reflexivity|].
  pose proof (parse_uint_loop_spec s 0) as Hs.
  assert (H0 : 0 <= 0 <= maxUint64) by (rewrite maxUint64_eq; lia).
  specialize (Hs H0).
  destruct (parse_uint_loop s 0) as [v [e|]].
  - simpl. destruct (decimal_loop s 0) as [v'|]; [|reflexivity].
    replace (v' <=? maxUint64) with false by (symmetry; apply Z.leb_gt; lia).
    by rewrite andb_false_r.
  - destruct Hs as [-> Hle]. pose proof (decimal_loop_mono s 0 v ltac:(lia)) as Hv.
    destruct (v <=? 0) eqn:Hz; simpl.
    + apply Z.leb_le in Hz. by replace (1 <=? v) with false by (symmetry; apply Z.leb_gt; lia).
    + apply Z.leb_gt in Hz.
      replace (1 <=? v) with true by (symmetry; apply Z.leb_le; lia).
      by replace (v <=? maxUint64) with true by (symmetry; apply Z.leb_le; lia).
Qed.

Lemma last_app_singleton {A} (l : list A) (x : A) : last (l ++ [x]) = Some x.
Proof. induction l as [|y [|z l] IH]; simpl; auto. Qed.

Definition is_json (o : output) : bool :=
  match o with OJSON _ _ => true | OLog _ => false end.

(** X10 (GetMarketInfo, strconv.ParseUint): the handler always ends with a
    success reply whose data is the persister's market data for a page and a
    page size read off the query: a non-empty decimal numeral of a value in
    1 .. 2^64-1 is used as given (also above MAX_PAGE_SIZE, which is only a
    default); an empty, non-numeric, zero or overflowing value falls back
    to 50 for the page size and to 1 for the page. *)
Theorem market_info_query (p : Persister) (pageSizeString pageNumString : string) :
  let param s dflt :=
    match decimal_value s with
    | Some v => if (1 <=? v) && (v <=? maxUint64) then v else dflt
    | None => dflt
    end in
  last (GetMarketInfo p pageSizeString pageNumString) =
    Some (OJSON 200 (JObj
      [("data", GetMarketData p (param pageNumString DEFAULT_PAGE)
                                (param pageSizeString MAX_PAGE_SIZE));
       ("status", JStr (if GetIsNewMarketInfo p then "latest" else "old"));
       ("success", JBool true)])).
Proof.
  intros param. unfold GetMarketInfo.
  pose proof (query_param_value pageSizeString MAX_PAGE_SIZE) as H1.
  pose proof (query_param_value pageNumString DEFAULT_PAGE) as H2.
  destruct (query_param pageSizeString MAX_PAGE_SIZE) as [sz l1].
  destruct (query_param pageNumString DEFAULT_PAGE) as [pg l2].
  simpl in H1, H2. subst sz pg.
  by rewrite app_assoc, last_app_singleton.
Qed.

(** X11 (GetMarketInfo): whatever the query, the persister is asked for a
    page and a page size between 1 and 2^64-1: never for page 0 or for an
    empty page. *)
Theorem market_info_args_positive (p : Persister) (pageSizeString pageNumString : string) :
  exists page size,
    1 <= page <= maxUint64 /\ 1 <= size <= maxUint64 /\
    last (GetMarketInfo p pageSizeString pageNumString) =
      Some (OJSON 200 (JObj
        [("data", GetMarketData p page size);
         ("status", JStr (if GetIsNewMarketInfo p then "latest" else "old"));
         ("success", JBool true)])).
Proof.
  assert (Hb : forall s dflt, 1 <= dflt <= maxUint64 -> 1 <= fst (query_param s dflt) <= maxUint64).
  { intros s dflt Hd. rewrite query_param_value.
    destruct (decimal_value s) as [v|]; [|exact Hd].
    destruct ((1 <=? v) && (v <=? maxUint64)) eqn:Hv; [|exact Hd].
    apply andb_true_iff in Hv as [Hv1 Hv2]. apply Z.leb_le in Hv1, Hv2. lia. }
  unfold GetMarketInfo.
  pose proof (Hb pageSizeString MAX_PAGE_SIZE ltac:(rewrite maxUint64_eq; cbv; split; discriminate)) as H1.
  pose proof (Hb pageNumString DEFAULT_PAGE ltac:(rewrite maxUint64_eq; cbv; split; discriminate)) as H2.
  destruct (query_param pageSizeString MAX_PAGE_SIZE) as [sz l1].
  destruct (query_param pageNumString DEFAULT_PAGE) as [pg l2].
  simpl in H1, H2. exists pg, sz. split; [exact H2|]. split; [exact H1|].
  by rewrite app_assoc, last_app_singleton.
Qed.

(** X12 (GetErrorLog): the error branch does not return, so the handler's
    last JSON write always reports success with the bytes read (none when
    the file could not be opened), and a failed read writes two JSON bodies,
    the failure first. *)
Theorem error_log_double_write (f : file_result) :
  last (GetErrorLog f) =
    Some (OJSON 200 (JObj [("data", JStr (match f with FileOk d => d | FileErr d _ => d end));
                           ("success", JBool true)])) /\
  filter (fun o => is_json o = true) (GetErrorLog f) =
    match f with
    | FileOk _ => []
    | FileErr _ err => [OJSON 200 (JObj [("data", err); ("success", JBool false)])]
    end ++ [OJSON 200 (JObj [("data", JStr (match f with FileOk d => d | FileErr d _ => d end));
                             ("success", JBool true)])].
Proof.
  unfold GetErrorLog. destruct f as [dat|dat err]; simpl;
    (split; [by rewrite ?last_app_singleton|reflexivity]).
Qed.

(** X13 (Run): no path is registered twice (gin panics on a duplicate
    route), and the error-log route is registered exactly when KYBER_ENV is
    not "production". *)
Theorem run_routes (KYBER_ENV : string) :
  NoDup (map fst (Run_routes KYBER_ENV)) /\
  (error_log_path ∈ map fst (Run_routes KYBER_ENV) <-> KYBER_ENV <> "production").
Proof.
  unfold Run_routes. destruct (String.eqb_spec KYBER_ENV "production") as [->|Hne]; simpl.
  - split; [apply (bool_decide_unpack _); vm_compute; reflexivity|].
    split; [|by intros []].
    intros Hin. exfalso. revert Hin. apply (bool_decide_unpack _). vm_compute. reflexivity.
  - split; [apply (bool_decide_unpack _); vm_compute; reflexivity|].
    split; [intros _; exact Hne|intros _].
    apply (bool_decide_unpack _). vm_compute. reflexivity.
Qed.
